(** * Turn taking and streaming audio of the voice client (frontend/app.js)

    A shallow embedding of the part of [frontend/app.js] that decides when the
    microphone is captured, when agent audio is rendered and how an interrupt
    hands the turn back to the user.  The module-level [let] variables and the
    fields of the [state] object become one record; every handler of the
    script becomes a function on that record; the browser (socket, audio
    context, audio sources, microphone permission, console, clock) is the
    part of the record that only the event loop writes.

    The script is single threaded: a handler runs to completion, and an
    [async] function is cut at each [await] that can really suspend.  Every
    such continuation is an explicit event of the model. *)

From Stdlib Require Import List String Ascii Bool Arith Lia.
Import ListNotations.
Open Scope string_scope.
Open Scope nat_scope.
Open Scope list_scope.

(** ** Data *)

(** [WebSocket.readyState]. *)
Inductive ReadyState : Type := CONNECTING | OPEN | CLOSING | CLOSED.

(** [AudioContext.state] of [audioContextInstance], once it exists.  A
    context made by [new AudioContext] after a user gesture is running; the
    user agent may suspend it later. *)
Inductive ContextState : Type := Running | Suspended.

(** The value of [data.audio] when it is a non-empty string: the base64 text,
    and whether [atob], the [Int16Array] view and [createBuffer] accept it
    (when one of them throws, [playAudio] catches and logs). *)
Record Chunk : Type := mkChunk { base64 : string; decodes : bool }.

(** The payload [message.data] of an inbound envelope, as far as the turn
    logic reads it.  An absent or falsy [audio] is [None]; the display fields
    ([text], [tool], [message], ...) are not read by the modelled code. *)
Record Data : Type := mkData { audio : option Chunk; role : option string }.

(** What [JSON.parse(event.data)] gives.  [Unparseable] is a text for which
    [JSON.parse] throws, or which parses to [null] (reading [message.type]
    then throws inside the same [try]).  In [Parsed ty d], [ty] is [None] when
    the [type] field is absent or not a string, and [d] is [None] when
    [message.data] is [undefined] or [null]. *)
Inductive Frame : Type :=
| Unparseable
| Parsed (ty : option string) (d : option Data).

(** An [AudioBuffer] in [audioQueue].  [arrival] is a ghost tag, the number of
    buffers pushed before it; [chunk] is the text it was decoded from. *)
Record Buffer : Type := mkBuffer { arrival : nat; chunk : string }.

(** Payload of an outbound envelope. *)
Inductive Payload : Type :=
| NoPayload
| AudioPayload (base64Audio : string).

(** The object [sendWebSocketMessage] serialises. *)
Record Envelope : Type :=
  mkEnvelope { e_type : string; e_data : Payload; e_timestamp : nat }.

(** An [async] call suspended inside [initAudioContext], at
    [await audioContextInstance.resume()]. *)
Inductive Waiter : Type :=
| WPlay (c : Chunk)   (* playAudio, before decoding *)
| WProc               (* processAudioQueue, before its while loop *)
| WVoice.             (* startVoiceMode, after getUserMedia *)

(** ** State *)

Record State : Type := mkState {
  (* let audioQueue, isProcessingAudio, pendingAgentDone *)
  audioQueue : list Buffer;
  isProcessingAudio : bool;
  pendingAgentDone : bool;
  (* let isVoiceModeActive, isListening, isAgentSpeaking *)
  isVoiceModeActive : bool;
  isListening : bool;
  isAgentSpeaking : bool;
  (* let mediaStream, audioProcessor: true when not null *)
  mediaStream : bool;
  audioProcessor : bool;
  (* fields of the state object *)
  isRecording : bool;
  isConnected : bool;
  isConversationActive : bool;
  websocket : option ReadyState;
  (* let audioContextInstance *)
  audioContextInstance : option ContextState;
  (* the browser *)
  waiters : list Waiter;       (* calls waiting for resume(), oldest first *)
  micRequests : nat;           (* startVoiceMode calls waiting for getUserMedia *)
  rendering : list Buffer;     (* sources started and not yet ended *)
  started : list Buffer;       (* every source.start(), oldest first *)
  arrivals : nat;              (* number of buffers pushed so far *)
  wire : list Envelope;        (* every websocket.send, oldest first *)
  console : list string;       (* console.log / console.error of the modelled code *)
  now : nat                    (* the clock read by new Date() *)
}.

Definition set_audioQueue (v : list Buffer) (s : State) : State :=
  mkState v (isProcessingAudio s) (pendingAgentDone s) (isVoiceModeActive s)
    (isListening s) (isAgentSpeaking s) (mediaStream s) (audioProcessor s)
    (isRecording s) (isConnected s) (isConversationActive s) (websocket s)
    (audioContextInstance s) (waiters s) (micRequests s) (rendering s) (started s)
    (arrivals s) (wire s) (console s) (now s).

Definition set_isProcessingAudio (v : bool) (s : State) : State :=
  mkState (audioQueue s) v (pendingAgentDone s) (isVoiceModeActive s)
    (isListening s) (isAgentSpeaking s) (mediaStream s) (audioProcessor s)
    (isRecording s) (isConnected s) (isConversationActive s) (websocket s)
    (audioContextInstance s) (waiters s) (micRequests s) (rendering s) (started s)
    (arrivals s) (wire s) (console s) (now s).

Definition set_pendingAgentDone (v : bool) (s : State) : State :=
  mkState (audioQueue s) (isProcessingAudio s) v (isVoiceModeActive s)
    (isListening s) (isAgentSpeaking s) (mediaStream s) (audioProcessor s)
    (isRecording s) (isConnected s) (isConversationActive s) (websocket s)
    (audioContextInstance s) (waiters s) (micRequests s) (rendering s) (started s)
    (arrivals s) (wire s) (console s) (now s).

Definition set_isVoiceModeActive (v : bool) (s : State) : State :=
  mkState (audioQueue s) (isProcessingAudio s) (pendingAgentDone s) v
    (isListening s) (isAgentSpeaking s) (mediaStream s) (audioProcessor s)
    (isRecording s) (isConnected s) (isConversationActive s) (websocket s)
    (audioContextInstance s) (waiters s) (micRequests s) (rendering s) (started s)
    (arrivals s) (wire s) (console s) (now s).

Definition set_isListening (v : bool) (s : State) : State :=
  mkState (audioQueue s) (isProcessingAudio s) (pendingAgentDone s)
    (isVoiceModeActive s) v (isAgentSpeaking s) (mediaStream s) (audioProcessor s)
    (isRecording s) (isConnected s) (isConversationActive s) (websocket s)
    (audioContextInstance s) (waiters s) (micRequests s) (rendering s) (started s)
    (arrivals s) (wire s) (console s) (now s).

Definition set_isAgentSpeaking (v : bool) (s : State) : State :=
  mkState (audioQueue s) (isProcessingAudio s) (pendingAgentDone s)
    (isVoiceModeActive s) (isListening s) v (mediaStream s) (audioProcessor s)
    (isRecording s) (isConnected s) (isConversationActive s) (websocket s)
    (audioContextInstance s) (waiters s) (micRequests s) (rendering s) (started s)
    (arrivals s) (wire s) (console s) (now s).

Definition set_mediaStream (v : bool) (s : State) : State :=
  mkState (audioQueue s) (isProcessingAudio s) (pendingAgentDone s)
    (isVoiceModeActive s) (isListening s) (isAgentSpeaking s) v (audioProcessor s)
    (isRecording s) (isConnected s) (isConversationActive s) (websocket s)
    (audioContextInstance s) (waiters s) (micRequests s) (rendering s) (started s)
    (arrivals s) (wire s) (console s) (now s).

Definition set_audioProcessor (v : bool) (s : State) : State :=
  mkState (audioQueue s) (isProcessingAudio s) (pendingAgentDone s)
    (isVoiceModeActive s) (isListening s) (isAgentSpeaking s) (mediaStream s) v
    (isRecording s) (isConnected s) (isConversationActive s) (websocket s)
    (audioContextInstance s) (waiters s) (micRequests s) (rendering s) (started s)
    (arrivals s) (wire s) (console s) (now s).

Definition set_isRecording (v : bool) (s : State) : State :=
  mkState (audioQueue s) (isProcessingAudio s) (pendingAgentDone s)
    (isVoiceModeActive s) (isListening s) (isAgentSpeaking s) (mediaStream s)
    (audioProcessor s) v (isConnected s) (isConversationActive s) (websocket s)
    (audioContextInstance s) (waiters s) (micRequests s) (rendering s) (started s)
    (arrivals s) (wire s) (console s) (now s).

Definition set_isConnected (v : bool) (s : State) : State :=
  mkState (audioQueue s) (isProcessingAudio s) (pendingAgentDone s)
    (isVoiceModeActive s) (isListening s) (isAgentSpeaking s) (mediaStream s)
    (audioProcessor s) (isRecording s) v (isConversationActive s) (websocket s)
    (audioContextInstance s) (waiters s) (micRequests s) (rendering s) (started s)
    (arrivals s) (wire s) (console s) (now s).

Definition set_isConversationActive (v : bool) (s : State) : State :=
  mkState (audioQueue s) (isProcessingAudio s) (pendingAgentDone s)
    (isVoiceModeActive s) (isListening s) (isAgentSpeaking s) (mediaStream s)
    (audioProcessor s) (isRecording s) (isConnected s) v (websocket s)
    (audioContextInstance s) (waiters s) (micRequests s) (rendering s) (started s)
    (arrivals s) (wire s) (console s) (now s).

Definition set_websocket (v : option ReadyState) (s : State) : State :=
  mkState (audioQueue s) (isProcessingAudio s) (pendingAgentDone s)
    (isVoiceModeActive s) (isListening s) (isAgentSpeaking s) (mediaStream s)
    (audioProcessor s) (isRecording s) (isConnected s) (isConversationActive s) v
    (audioContextInstance s) (waiters s) (micRequests s) (rendering s) (started s)
    (arrivals s) (wire s) (console s) (now s).

Definition set_audioContextInstance (v : option ContextState) (s : State) : State :=
  mkState (audioQueue s) (isProcessingAudio s) (pendingAgentDone s)
    (isVoiceModeActive s) (isListening s) (isAgentSpeaking s) (mediaStream s)
    (audioProcessor s) (isRecording s) (isConnected s) (isConversationActive s)
    (websocket s) v (waiters s) (micRequests s) (rendering s) (started s)
    (arrivals s) (wire s) (console s) (now s).

Definition set_waiters (v : list Waiter) (s : State) : State :=
  mkState (audioQueue s) (isProcessingAudio s) (pendingAgentDone s)
    (isVoiceModeActive s) (isListening s) (isAgentSpeaking s) (mediaStream s)
    (audioProcessor s) (isRecording s) (isConnected s) (isConversationActive s)
    (websocket s) (audioContextInstance s) v (micRequests s) (rendering s)
    (started s) (arrivals s) (wire s) (console s) (now s).

Definition set_micRequests (v : nat) (s : State) : State :=
  mkState (audioQueue s) (isProcessingAudio s) (pendingAgentDone s)
    (isVoiceModeActive s) (isListening s) (isAgentSpeaking s) (mediaStream s)
    (audioProcessor s) (isRecording s) (isConnected s) (isConversationActive s)
    (websocket s) (audioContextInstance s) (waiters s) v (rendering s) (started s)
    (arrivals s) (wire s) (console s) (now s).

Definition set_rendering (v : list Buffer) (s : State) : State :=
  mkState (audioQueue s) (isProcessingAudio s) (pendingAgentDone s)
    (isVoiceModeActive s) (isListening s) (isAgentSpeaking s) (mediaStream s)
    (audioProcessor s) (isRecording s) (isConnected s) (isConversationActive s)
    (websocket s) (audioContextInstance s) (waiters s) (micRequests s) v
    (started s) (arrivals s) (wire s) (console s) (now s).

Definition set_started (v : list Buffer) (s : State) : State :=
  mkState (audioQueue s) (isProcessingAudio s) (pendingAgentDone s)
    (isVoiceModeActive s) (isListening s) (isAgentSpeaking s) (mediaStream s)
    (audioProcessor s) (isRecording s) (isConnected s) (isConversationActive s)
    (websocket s) (audioContextInstance s) (waiters s) (micRequests s)
    (rendering s) v (arrivals s) (wire s) (console s) (now s).

Definition set_arrivals (v : nat) (s : State) : State :=
  mkState (audioQueue s) (isProcessingAudio s) (pendingAgentDone s)
    (isVoiceModeActive s) (isListening s) (isAgentSpeaking s) (mediaStream s)
    (audioProcessor s) (isRecording s) (isConnected s) (isConversationActive s)
    (websocket s) (audioContextInstance s) (waiters s) (micRequests s)
    (rendering s) (started s) v (wire s) (console s) (now s).

Definition set_wire (v : list Envelope) (s : State) : State :=
  mkState (audioQueue s) (isProcessingAudio s) (pendingAgentDone s)
    (isVoiceModeActive s) (isListening s) (isAgentSpeaking s) (mediaStream s)
    (audioProcessor s) (isRecording s) (isConnected s) (isConversationActive s)
    (websocket s) (audioContextInstance s) (waiters s) (micRequests s)
    (rendering s) (started s) (arrivals s) v (console s) (now s).

Definition set_console (v : list string) (s : State) : State :=
  mkState (audioQueue s) (isProcessingAudio s) (pendingAgentDone s)
    (isVoiceModeActive s) (isListening s) (isAgentSpeaking s) (mediaStream s)
    (audioProcessor s) (isRecording s) (isConnected s) (isConversationActive s)
    (websocket s) (audioContextInstance s) (waiters s) (micRequests s)
    (rendering s) (started s) (arrivals s) (wire s) v (now s).

Definition set_now (v : nat) (s : State) : State :=
  mkState (audioQueue s) (isProcessingAudio s) (pendingAgentDone s)
    (isVoiceModeActive s) (isListening s) (isAgentSpeaking s) (mediaStream s)
    (audioProcessor s) (isRecording s) (isConnected s) (isConversationActive s)
    (websocket s) (audioContextInstance s) (waiters s) (micRequests s)
    (rendering s) (started s) (arrivals s) (wire s) (console s) v.

(** ** Small helpers of the script *)

(** [console.log(line, ...)] and [console.error(line, ...)]: the constant
    first argument is recorded. *)
Definition log (line : string) (s : State) : State :=
  set_console (console s ++ [line]) s.

(** [state.websocket && state.websocket.readyState === WebSocket.OPEN] *)
Definition socketOpen (s : State) : bool :=
  match websocket s with
  | Some OPEN => true
  | _ => false
  end.

(** [sendWebSocketMessage(type, data)]; no caller in the modelled code reads
    the boolean it returns. *)
Definition sendWebSocketMessage (type : string) (data : Payload) (s : State)
  : State :=
  if socketOpen s
  then set_wire (wire s ++ [mkEnvelope type data (now s)]) s
  else log "WebSocket not connected" s.

(** [pauseListening()]; [updateVoiceStatus] only touches the page. *)
Definition pauseListening (s : State) : State :=
  set_isListening false (log "[VOICE] Pausing listening" s).

(** [resumeListening()] *)
Definition resumeListening (s : State) : State :=
  let s1 := log "[VOICE] Resuming listening" s in
  if isVoiceModeActive s1 then set_isListening true s1 else s1.

(** [clearAudioQueue()] *)
Definition clearAudioQueue (s : State) : State :=
  let s1 := log "[AUDIO] Clearing audio queue" s in
  let s2 := set_audioQueue [] s1 in
  let s3 := set_isProcessingAudio false s2 in
  set_pendingAgentDone false s3.

(** ** The playback scheduler *)

(** [initAudioContext()]: the boolean tells whether the call returns within
    the current task ([true]) or waits for [resume()] ([false]). *)
Definition initAudioContext (s : State) : bool * State :=
  match audioContextInstance s with
  | None => (true, set_audioContextInstance (Some Running) s)
  | Some Running => (true, s)
  | Some Suspended => (false, s)
  end.

(** [await initAudioContext()] followed by the continuation [k] of the
    calling [async] function, which is registered as [w] when it must wait. *)
Definition awaitContext (w : Waiter) (k : State -> State) (s : State) : State :=
  let (ready, s1) := initAudioContext s in
  if ready then k s1 else set_waiters (waiters s1 ++ [w]) s1.

(** [processAudioQueue], lines after the [while] loop. *)
Definition queueDrained (s : State) : State :=
  let s1 := set_isProcessingAudio false s in
  let s2 := log "[AUDIO] Queue empty" s1 in
  if pendingAgentDone s2 then
    let s3 :=
      log "[AUDIO] Processing pending agent done - resuming listening" s2 in
    let s4 := set_pendingAgentDone false s3 in
    let s5 := set_isAgentSpeaking false s4 in
    if isVoiceModeActive s5 then resumeListening s5 else s5
  else s2.

(** [processAudioQueue], one test of the [while] condition: either the head
    of the queue is shifted out and its source started (the call then waits
    for [onended]), or the loop is left. *)
Definition nextBuffer (s : State) : State :=
  match audioQueue s with
  | buffer :: rest =>
      let s1 := set_audioQueue rest s in
      let s2 := set_rendering (rendering s1 ++ [buffer]) s1 in
      set_started (started s2 ++ [buffer]) s2
  | [] => queueDrained s
  end.

(** [processAudioQueue()] *)
Definition processAudioQueue (s : State) : State :=
  if isProcessingAudio s || (List.length (audioQueue s) =? 0) then s
  else awaitContext WProc nextBuffer (set_isProcessingAudio true s).

(** [playAudio], from the decoding to the end of the [try] block. *)
Definition playAudioDecoded (c : Chunk) (s : State) : State :=
  if decodes c then
    let s1 :=
      set_audioQueue (audioQueue s ++ [mkBuffer (arrivals s) (base64 c)]) s in
    let s2 := set_arrivals (S (arrivals s1)) s1 in
    let s3 := log "[AUDIO] Added to queue" s2 in
    processAudioQueue s3
  else log "Error playing audio:" s.

(** [playAudio(base64Audio)] *)
Definition playAudio (c : Chunk) (s : State) : State :=
  awaitContext (WPlay c) (playAudioDecoded c) s.

(** The [onended] event of the source that plays the buffer tagged [n]: the
    promise of the [processAudioQueue] call that started it resolves and the
    call tests the [while] condition again. *)
Definition isPlaying (n : nat) (s : State) : bool :=
  existsb (fun b => arrival b =? n) (rendering s).

Definition sourceEnded (n : nat) (s : State) : State :=
  if isPlaying n s then
    nextBuffer
      (set_rendering (filter (fun b => negb (arrival b =? n)) (rendering s)) s)
  else s.

(** ** Voice mode *)

(** [startVoiceMode], after both of its [await]s. *)
Definition voiceStarted (s : State) : State :=
  let s1 := set_audioProcessor true s in
  let s2 := set_isVoiceModeActive true s1 in
  let s3 := set_isListening true s2 in
  set_isRecording true s3.

(** [getUserMedia] resolved: the stream is stored, then
    [await initAudioContext()]. *)
Definition micGranted (s : State) : State :=
  match micRequests s with
  | 0 => s
  | S n =>
      awaitContext WVoice voiceStarted
        (set_mediaStream true (set_micRequests n s))
  end.

(** [getUserMedia] rejected: the [catch] block of [startVoiceMode]. *)
Definition micDenied (s : State) : State :=
  match micRequests s with
  | 0 => s
  | S n => log "Error starting voice mode:" (set_micRequests n s)
  end.

(** [stopVoiceMode()]; stopping the tracks and dropping the stream releases
    the microphone. *)
Definition stopVoiceMode (s : State) : State :=
  let s1 := set_isVoiceModeActive false s in
  let s2 := set_isListening false s1 in
  let s3 := set_isRecording false s2 in
  let s4 := set_audioProcessor false s3 in
  set_mediaStream false s4.

(** [resetUIState()] *)
Definition resetUIState (s : State) : State :=
  if isRecording s || isVoiceModeActive s then
    let s1 := set_isVoiceModeActive false s in
    let s2 := set_isListening false s1 in
    let s3 := set_isRecording false s2 in
    let s4 := set_audioProcessor false s3 in
    set_mediaStream false s4
  else s.

(** Click on [voiceToggleBtn]. *)
Definition clickVoiceToggle (s : State) : State :=
  if negb (isConnected s) then s
  else if isVoiceModeActive s then stopVoiceMode s
  else set_micRequests (S (micRequests s)) s.

(** [audioProcessor.onaudioprocess]; the event carries the frame already
    converted to PCM16 and base64 (the conversion is floating point). *)
Definition onaudioprocess (base64Audio : string) (s : State) : State :=
  if audioProcessor s then
    if negb (isVoiceModeActive s) || negb (isListening s) then s
    else sendWebSocketMessage "audio_input" (AudioPayload base64Audio) s
  else s.

(** Click on [interruptBtn]. *)
Definition clickInterrupt (s : State) : State :=
  if negb (isVoiceModeActive s) || negb (isAgentSpeaking s) then s
  else
    let s1 := log "[INTERRUPT] User interrupted agent" s in
    let s2 := sendWebSocketMessage "interrupt" NoPayload s1 in
    let s3 := clearAudioQueue s2 in
    let s4 := set_isAgentSpeaking false s3 in
    resumeListening s4.

(** ** Inbound messages *)

(** What a handler called inside the [try] of [handleWebSocketMessage] did:
    it returned, or it threw after having brought the state to the given
    one. *)
Inductive Outcome : Type :=
| Done (s : State)
| Threw (s : State).

(** [handleSessionStarted(data)]: the flag is set before [data.message] is
    read. *)
Definition handleSessionStarted (d : option Data) (s : State) : Outcome :=
  let s1 := log "Session started:" s in
  let s2 := set_isConversationActive true s1 in
  match d with
  | None => Threw s2
  | Some _ => Done s2
  end.

(** [handleSessionEnded(data)] *)
Definition handleSessionEnded (s : State) : Outcome :=
  let s1 := log "Session ended:" s in
  let s2 := set_isConversationActive false s1 in
  Done (resetUIState s2).

(** The handlers that only draw on the page ([handleTranscript],
    [handleToolCall], [handleToolResult], [handleHandoff],
    [handleContextUpdate], [handleError]).  Each reads a field of [data]
    first, which throws when there is no payload; their drawing and their own
    console lines are outside the model. *)
Definition displayOnly (d : option Data) (s : State) : Outcome :=
  match d with
  | None => Threw s
  | Some _ => Done s
  end.

(** [handlePartialTranscript(data)] *)
Definition handlePartialTranscript (d : option Data) (s : State) : Outcome :=
  match d with
  | None => Threw s
  | Some data =>
      match role data with
      | Some r =>
          if String.eqb r "assistant" && isVoiceModeActive s
          then Done (pauseListening (set_isAgentSpeaking true s))
          else Done s
      | None => Done s
      end
  end.

(** [handleUserTranscript(data)] *)
Definition handleUserTranscript (d : option Data) (s : State) : Outcome :=
  match d with
  | None => Threw s
  | Some _ =>
      let s1 := log "[USER_TRANSCRIPT] Received:" s in
      if isVoiceModeActive s1 then Done (pauseListening s1) else Done s1
  end.

(** [data.audio] as a condition: a non-empty string. *)
Definition hasAudio (data : Data) : option Chunk :=
  match audio data with
  | Some c => if String.eqb (base64 c) "" then None else Some c
  | None => None
  end.

(** [handleAudioOutput(data)] *)
Definition handleAudioOutput (d : option Data) (s : State) : Outcome :=
  match d with
  | None => Threw s
  | Some data =>
      let s1 := log "[AUDIO_OUTPUT] Received" s in
      match hasAudio data with
      | Some c =>
          if isVoiceModeActive s1 then
            let s2 :=
              if negb (isAgentSpeaking s1) then
                let t1 :=
                  log "[AUDIO_OUTPUT] Agent started speaking, pausing listening"
                    s1 in
                let t2 := set_isAgentSpeaking true t1 in
                let t3 := set_pendingAgentDone false t2 in
                pauseListening t3
              else s1 in
            Done (playAudio c s2)
          else Done s1
      | None => Done s1
      end
  end.

(** [handleAgentSpeaking(data)] *)
Definition handleAgentSpeaking (s : State) : Outcome :=
  let s1 := set_isAgentSpeaking true s in
  if isVoiceModeActive s1 then Done (pauseListening s1) else Done s1.

(** [handleAgentDone(data)] *)
Definition handleAgentDone (s : State) : Outcome :=
  let s1 := log "[AGENT_DONE] Received" s in
  if (0 <? List.length (audioQueue s1)) || isProcessingAudio s1 then
    let s2 :=
      log "[AGENT_DONE] Audio still playing, marking pendingAgentDone=true" s1 in
    Done (set_pendingAgentDone true s2)
  else
    let s2 := set_isAgentSpeaking false s1 in
    if isVoiceModeActive s2 then
      let s3 := log "[AGENT_DONE] No audio pending, resuming listening" s2 in
      Done (resumeListening s3)
    else Done s2.

(** The type tags of the [switch]. *)
Inductive Tag : Type :=
| t_session_started | t_session_ended | t_transcript | t_partial_transcript
| t_user_transcript | t_audio_output | t_tool_call | t_tool_result | t_handoff
| t_context_update | t_agent_speaking | t_agent_done | t_error.

Definition tagName (t : Tag) : string :=
  match t with
  | t_session_started => "session_started"
  | t_session_ended => "session_ended"
  | t_transcript => "transcript"
  | t_partial_transcript => "partial_transcript"
  | t_user_transcript => "user_transcript"
  | t_audio_output => "audio_output"
  | t_tool_call => "tool_call"
  | t_tool_result => "tool_result"
  | t_handoff => "handoff"
  | t_context_update => "context_update"
  | t_agent_speaking => "agent_speaking"
  | t_agent_done => "agent_done"
  | t_error => "error"
  end.

Definition allTags : list Tag :=
  [t_session_started; t_session_ended; t_transcript; t_partial_transcript;
   t_user_transcript; t_audio_output; t_tool_call; t_tool_result; t_handoff;
   t_context_update; t_agent_speaking; t_agent_done; t_error].

(** The [case] that [message.type] selects, if any. *)
Definition caseOf (ty : option string) : option Tag :=
  match ty with
  | Some name => find (fun t => String.eqb name (tagName t)) allTags
  | None => None
  end.

(** The body of the [switch]. *)
Definition dispatch (ty : option string) (d : option Data) (s : State)
  : Outcome :=
  match caseOf ty with
  | Some t_session_started => handleSessionStarted d s
  | Some t_session_ended => handleSessionEnded s
  | Some t_partial_transcript => handlePartialTranscript d s
  | Some t_user_transcript => handleUserTranscript d s
  | Some t_audio_output => handleAudioOutput d s
  | Some t_agent_speaking => handleAgentSpeaking s
  | Some t_agent_done => handleAgentDone s
  | Some t_transcript | Some t_tool_call | Some t_tool_result | Some t_handoff
  | Some t_context_update | Some t_error => displayOnly d s
  | None => Done (log "Unknown message type:" s)
  end.

(** [handleWebSocketMessage(event)] *)
Definition handleWebSocketMessage (f : Frame) (s : State) : State :=
  match f with
  | Unparseable => log "Error parsing WebSocket message:" s
  | Parsed ty d =>
      match dispatch ty d (log "Received message:" s) with
      | Done s1 => s1
      | Threw s1 => log "Error parsing WebSocket message:" s1
      end
  end.

(** ** The connection *)

(** [connectWebSocket()] *)
Definition connectWebSocket (s : State) : State :=
  if socketOpen s then s
  else set_websocket (Some CONNECTING) (log "Connecting to WebSocket:" s).

(** [disconnectWebSocket()] *)
Definition disconnectWebSocket (s : State) : State :=
  let s1 := set_websocket None s in
  let s2 := set_isConnected false s1 in
  set_isConversationActive false s2.

(** The socket opens, then [handleWebSocketOpen(event)]. *)
Definition socketOpened (s : State) : State :=
  match websocket s with
  | Some CONNECTING =>
      set_isConnected true
        (log "WebSocket connected" (set_websocket (Some OPEN) s))
  | _ => s
  end.

(** The socket closes, then [handleWebSocketClose(event)]. *)
Definition socketClosed (s : State) : State :=
  let s0 :=
    match websocket s with
    | Some _ => set_websocket (Some CLOSED) s
    | None => s
    end in
  let s1 := log "WebSocket closed:" s0 in
  let s2 := set_isConnected false s1 in
  let s3 := set_isConversationActive false s2 in
  resetUIState s3.

(** Click on [endBtn]. *)
Definition clickEnd (s : State) : State :=
  resetUIState
    (disconnectWebSocket (sendWebSocketMessage "end_session" NoPayload s)).

(** ** The event loop *)

(** A call that waited for [resume()] goes on. *)
Definition resumeWaiter (w : Waiter) (s : State) : State :=
  match w with
  | WPlay c => playAudioDecoded c s
  | WProc => nextBuffer s
  | WVoice => voiceStarted s
  end.

(** The context runs again: the pending [resume()] promises resolve in the
    order of the calls. *)
Definition contextResumed (s : State) : State :=
  match audioContextInstance s with
  | Some Suspended =>
      fold_left (fun st w => resumeWaiter w st) (waiters s)
        (set_waiters [] (set_audioContextInstance (Some Running) s))
  | _ => s
  end.

(** The user agent suspends the running context. *)
Definition contextSuspended (s : State) : State :=
  match audioContextInstance s with
  | Some Running => set_audioContextInstance (Some Suspended) s
  | _ => s
  end.

(** One task of the event loop. *)
Inductive Event : Type :=
| ClickStart
| ClickEnd
| SocketOpened
| SocketClosed
| SocketError
| Message (f : Frame)
| ClickVoiceToggle
| MicGranted
| MicDenied
| AudioProcess (base64Audio : string)
| ClickInterrupt
| SourceEnded (n : nat)
| ContextSuspended
| ContextResumed
| Tick.

Definition step (e : Event) (s : State) : State :=
  match e with
  | ClickStart => connectWebSocket s
  | ClickEnd => clickEnd s
  | SocketOpened => socketOpened s
  | SocketClosed => socketClosed s
  | SocketError => log "WebSocket error:" s
  | Message f => handleWebSocketMessage f s
  | ClickVoiceToggle => clickVoiceToggle s
  | MicGranted => micGranted s
  | MicDenied => micDenied s
  | AudioProcess a => onaudioprocess a s
  | ClickInterrupt => clickInterrupt s
  | SourceEnded n => sourceEnded n s
  | ContextSuspended => contextSuspended s
  | ContextResumed => contextResumed s
  | Tick => set_now (S (now s)) s
  end.

Definition run (es : list Event) (s : State) : State :=
  fold_left (fun st e => step e st) es s.

(** The state when the script has been loaded. *)
Definition initial : State :=
  mkState [] false false false false false false false false false false None
    None [] 0 [] [] 0 [] [] 0.

Inductive reachable : State -> Prop :=
| reachable_initial : reachable initial
| reachable_step : forall e s, reachable s -> reachable (step e s).

(** ** Text helpers and side panels

    The functions below draw on the page; what is modelled is what they
    compute and what they store in the [state] object.  The turn logic reads
    none of it. *)

(** A JavaScript string as the sequence of its code points, which is what
    [for (const char of text)] iterates over. *)
Definition Text : Type := list nat.

Definition codes (s : string) : Text :=
  map nat_of_ascii (list_ascii_of_string s).

Fixpoint textEqb (a b : Text) : bool :=
  match a, b with
  | [], [] => true
  | x :: a', y :: b' => (x =? y) && textEqb a' b'
  | _, _ => false
  end.

(** The object literal [hindiToEnglish] of [transliterateToEnglish], keys as
    code points, in the order of the source. *)
Definition hindiToEnglish : list (Text * string) :=
  [([2309], "a"); ([2310], "aa"); ([2311], "i"); ([2312], "ee");
   ([2313], "u"); ([2314], "oo"); ([2319], "e"); ([2320], "ai");
   ([2323], "o"); ([2324], "au"); ([2309; 2306], "an"); ([2309; 2307], "ah");
   ([2325], "ka"); ([2326], "kha"); ([2327], "ga"); ([2328], "gha");
   ([2329], "nga"); ([2330], "cha"); ([2331], "chha"); ([2332], "ja");
   ([2333], "jha"); ([2334], "nya"); ([2335], "ta"); ([2336], "tha");
   ([2337], "da"); ([2338], "dha"); ([2339], "na"); ([2340], "ta");
   ([2341], "tha"); ([2342], "da"); ([2343], "dha"); ([2344], "na");
   ([2346], "pa"); ([2347], "pha"); ([2348], "ba"); ([2349], "bha");
   ([2350], "ma"); ([2351], "ya"); ([2352], "ra"); ([2354], "la");
   ([2357], "va"); ([2358], "sha"); ([2359], "sha"); ([2360], "sa");
   ([2361], "ha"); ([2366], "a"); ([2367], "i"); ([2368], "ee");
   ([2369], "u"); ([2370], "oo"); ([2375], "e"); ([2376], "ai");
   ([2379], "o"); ([2380], "au"); ([2381], ""); ([2306], "n"); ([2307], "h");
   ([2404], "."); ([2405], "."); ([2406], "0"); ([2407], "1"); ([2408], "2");
   ([2409], "3"); ([2410], "4"); ([2411], "5"); ([2412], "6"); ([2413], "7");
   ([2414], "8"); ([2415], "9")].

(** [hindiToEnglish[char]] *)
Definition lookupHindi (key : Text) : option string :=
  option_map snd (find (fun entry => textEqb (fst entry) key) hindiToEnglish).

(** [hindiToEnglish[char] || char]: an empty replacement is falsy. *)
Definition transliterateChar (char : nat) : Text :=
  match lookupHindi [char] with
  | Some replacement =>
      if String.eqb replacement "" then [char] else codes replacement
  | None => [char]
  end.

(** [transliterateToEnglish(text)] *)
Definition transliterateToEnglish (text : Text) : Text :=
  flat_map transliterateChar text.

(** [containsNonEnglish(text)]: the test of [/[^\x00-\x7F]/]. *)
Definition containsNonEnglish (text : Text) : bool :=
  existsb (fun c => 127 <? c) text.

(** [processTextForDisplay(text)] *)
Definition processTextForDisplay (text : Text) : Text :=
  if containsNonEnglish text then transliterateToEnglish text else text.

(** The class [\w] of a regular expression without the [u] flag. *)
Definition isWordChar (c : ascii) : bool :=
  let n := nat_of_ascii c in
  ((48 <=? n) && (n <=? 57)) || ((65 <=? n) && (n <=? 90)) ||
  ((97 <=? n) && (n <=? 122)) || (n =? 95).

(** [l.toUpperCase()] on one character matched by [\w]. *)
Definition toUpperCase (c : ascii) : ascii :=
  let n := nat_of_ascii c in
  if (97 <=? n) && (n <=? 122) then ascii_of_nat (n - 32) else c.

(** [.replace(/_/g, ' ')] *)
Fixpoint replaceUnderscores (s : string) : string :=
  match s with
  | EmptyString => EmptyString
  | String c rest =>
      String (if Ascii.eqb c "_" then " "%char else c) (replaceUnderscores rest)
  end.

(** [.replace(/\b\w/g, l => l.toUpperCase())]: a match is a word character
    that follows the start of the string or a character that is not one;
    [inWord] tells whether the previous character was a word character. *)
Fixpoint capitalizeWords (inWord : bool) (s : string) : string :=
  match s with
  | EmptyString => EmptyString
  | String c rest =>
      String (if isWordChar c && negb inWord then toUpperCase c else c)
        (capitalizeWords (isWordChar c) rest)
  end.

(** [formatToolName(toolName)] *)
Definition formatToolName (toolName : string) : string :=
  capitalizeWords false (replaceUnderscores toolName).

(** A property of a JavaScript object: absent, or present with a value that
    may be [undefined] ([None]). *)
Inductive Slot : Type :=
| Absent
| Present (v : option string).

(** [state.customerInfo] and the [info] objects merged into it. *)
Record Info : Type := mkInfo { name : Slot; email : Slot; phone : Slot }.

(** What [handleContextUpdate] reads of its payload. *)
Record ContextData : Type := mkContextData {
  cd_name : option string;
  cd_email : option string;
  cd_phone : option string;
  current_agent : option string;
  products_discussed : option (list string)   (* [Some] when it is an array *)
}.

(** The part of the [state] object that the side panels show. *)
Record Panel : Type := mkPanel {
  customerInfo : Info;
  currentAgent : string;
  productsDiscussed : list string
}.

(** One property of [{ ...a, ...b }]. *)
Definition spreadSlot (a b : Slot) : Slot :=
  match b with
  | Absent => a
  | Present _ => b
  end.

(** [{ ...a, ...b }] *)
Definition spread (a b : Info) : Info :=
  mkInfo (spreadSlot (name a) (name b)) (spreadSlot (email a) (email b))
    (spreadSlot (phone a) (phone b)).



(** [updateCustomerInfo(info)]: the new [state.customerInfo]. *)
Definition updateCustomerInfo (info : Info) (p : Panel) : Panel :=
  mkPanel (spread (customerInfo p) info) (currentAgent p) (productsDiscussed p).

(** [updateAgentDisplay(agentName)] *)
Definition updateAgentDisplay (agentName : string) (p : Panel) : Panel :=
  mkPanel (customerInfo p) agentName (productsDiscussed p).

(** [addProduct(productName)] *)
Definition addProduct (productName : string) (p : Panel) : Panel :=
  if existsb (String.eqb productName) (productsDiscussed p) then p
  else mkPanel (customerInfo p) (currentAgent p)
         (productsDiscussed p ++ [productName]).

(** [handleContextUpdate(data)] *)
Definition handleContextUpdate (data : ContextData) (p : Panel) : Panel :=
  let p1 :=
    updateCustomerInfo
      (mkInfo (Present (cd_name data)) (Present (cd_email data))
         (Present (cd_phone data))) p in
  let p2 :=
    match current_agent data with
    | Some agent =>
        if String.eqb agent "" then p1 else updateAgentDisplay agent p1
    | None => p1
    end in
  match products_discussed data with
  | Some products => fold_left (fun q product => addProduct product q) products p2
  | None => p2
  end.


(** ** Vocabulary of the properties *)

(** Number of calls of [resumeListening] so far, read off the console. *)
Definition resumes (s : State) : nat :=
  count_occ string_dec (console s) "[VOICE] Resuming listening".

(** Number of times the scheduler left its loop ("queue drained"). *)
Definition drains (s : State) : nat :=
  count_occ string_dec (console s) "[AUDIO] Queue empty".

(** [message.type] matches no [case] of the [switch]. *)
Definition unknownTag (ty : option string) : Prop :=
  forall t : Tag, ty <> Some (tagName t).

(** An envelope that cannot be read, or that carries an unknown tag. *)
Definition malformed (f : Frame) : Prop :=
  match f with
  | Unparseable => True
  | Parsed ty _ => unknownTag ty
  end.

(** The payload of an [audio_output] message carries no audio. *)
Definition lacksAudio (d : option Data) : Prop :=
  match d with
  | None => True
  | Some data => hasAudio data = None
  end.

(** The [onended] events of the given buffers, in order. *)
Definition completions (bs : list Buffer) : list Event :=
  map (fun b => SourceEnded (arrival b)) bs.

(** The envelope the interrupt handler sends from state [s]. *)
Definition interruptNotice (s : State) : Envelope :=
  mkEnvelope "interrupt" NoPayload (now s).

(** Turn states of the specification, read off the flags. *)
Definition LISTENING (s : State) : bool :=
  isVoiceModeActive s && isListening s.

Definition AGENT_SPEAKING (s : State) : bool :=
  isVoiceModeActive s && isAgentSpeaking s.

(** No event of the run suspends the audio context. *)
Definition contextKeptRunning (es : list Event) : Prop :=
  ~ In ContextSuspended es.

(** No event of the run is a click on the interrupt button. *)
Definition withoutInterrupt (es : list Event) : Prop :=
  ~ In ClickInterrupt es.

(** What holds of the flags as long as the audio context never waits: a
    buffer in the queue or a raised pending flag means the scheduler is
    active, and an active scheduler means the agent-speaking flag is up. *)
Definition steady (s : State) : Prop :=
  audioContextInstance s <> Some Suspended /\ waiters s = [] /\
  (audioQueue s <> [] -> isProcessingAudio s = true) /\
  (isProcessingAudio s = true -> isAgentSpeaking s = true) /\
  (pendingAgentDone s = true -> isProcessingAudio s = true).

(** The listening flag is only ever up in voice mode. *)
Definition listensInVoiceMode (s : State) : Prop :=
  isListening s = true -> isVoiceModeActive s = true.

(** Strictly increasing arrival tags, all below [bound]. *)
Fixpoint ascending (bound : nat) (tags : list nat) : Prop :=
  match tags with
  | [] => True
  | n :: rest => n < bound /\ Forall (fun m => n < m) rest /\ ascending bound rest
  end.

(** Arrival order: the buffers started so far, followed by the buffers still
    queued, carry strictly increasing arrival tags. *)
Definition fifo (s : State) : Prop :=
  ascending (arrivals s) (map arrival (started s ++ audioQueue s)).

(** Calls of [processAudioQueue] that are alive: one per source that is
    rendering, one per call waiting for the context. *)
Definition isProc (w : Waiter) : bool :=
  match w with
  | WProc => true
  | _ => false
  end.

Definition liveCalls (s : State) : nat :=
  List.length (rendering s) + List.length (filter isProc (waiters s)).

(** The rendering flag counts the live calls: it is up exactly when one call
    is alive, [k] of them being accounted for outside the state. *)
Definition calls (k : nat) (s : State) : Prop :=
  liveCalls s + k = (if isProcessingAudio s then 1 else 0).

(** [t] differs from [s] at most in what the playback scheduler and the turn
    flags own: voice mode, the microphone, the connection, the wire and the
    clock are the same. *)
Definition playbackOnly (s t : State) : Prop :=
  isVoiceModeActive t = isVoiceModeActive s /\
  mediaStream t = mediaStream s /\ audioProcessor t = audioProcessor s /\
  isRecording t = isRecording s /\ isConnected t = isConnected s /\
  isConversationActive t = isConversationActive s /\
  websocket t = websocket s /\ micRequests t = micRequests s /\
  wire t = wire s /\ now t = now s.


(** The events that end the conversation or lose the connection. *)
Definition closing (e : Event) : Prop :=
  e = SocketClosed \/ e = ClickEnd \/
  exists d, e = Message (Parsed (Some "session_ended") d).

(** Every source started beyond [base], and every buffer queued, arrived at
    tag [n] or later. *)
Definition since (n : nat) (base : list Buffer) (s : State) : Prop :=
  n <= arrivals s /\
  Forall (fun b => n <= arrival b) (audioQueue s) /\
  forall b, In b (started s) -> In b base \/ n <= arrival b.

(** ** Scenarios *)

(** Conversation started, socket open, voice mode on. *)
Definition voiceOn : list Event :=
  [ClickStart; SocketOpened; ClickVoiceToggle; MicGranted].

Definition someAudio : option Data :=
  Some (mkData (Some (mkChunk "UklGRg==" true)) None).

Definition audioOutput : Event := Message (Parsed (Some "audio_output") someAudio).

Definition agentDone : Event := Message (Parsed (Some "agent_done") None).

(** ** Basic facts *)

Lemma run_app : forall es1 es2 s, run (es1 ++ es2) s = run es2 (run es1 s).
Proof. intros. unfold run. apply fold_left_app. Qed.

Lemma run_cons : forall e es s, run (e :: es) s = run es (step e s).
Proof. reflexivity. Qed.

Lemma reachable_run : forall es s, reachable s -> reachable (run es s).
Proof.
  induction es as [| e es IH]; intros s H; simpl.
  - exact H.
  - apply IH. now constructor.
Qed.

Lemma reachable_trace : forall s, reachable s -> exists es, s = run es initial.
Proof.
  induction 1 as [| e s _ [es ->]].
  - now exists [].
  - exists (es ++ [e]). now rewrite run_app.
Qed.

Lemma resumes_log :
  forall line s,
    resumes (log line s) =
    resumes s + (if string_dec line "[VOICE] Resuming listening" then 1 else 0).
Proof.
  intros. unfold resumes, log. destruct s; simpl.
  rewrite count_occ_app. simpl.
  destruct (string_dec line "[VOICE] Resuming listening"); reflexivity.
Qed.

Lemma caseOf_tagName : forall t, caseOf (Some (tagName t)) = Some t.
Proof. destruct t; reflexivity. Qed.

Lemma caseOf_sound : forall ty t, caseOf ty = Some t -> ty = Some (tagName t).
Proof.
  intros [name |] t H; [| discriminate].
  unfold caseOf in H. apply find_some in H. destruct H as [_ H].
  apply String.eqb_eq in H. now subst.
Qed.

Lemma unknownTag_caseOf : forall ty, unknownTag ty -> caseOf ty = None.
Proof.
  intros ty H. destruct (caseOf ty) as [t |] eqn:E; [| reflexivity].
  apply caseOf_sound in E. now elim (H t).
Qed.

(** [await initAudioContext()] by cases on the context. *)
Lemma awaitContext_eq :
  forall w k s,
    awaitContext w k s =
    match audioContextInstance s with
    | None => k (set_audioContextInstance (Some Running) s)
    | Some Running => k s
    | Some Suspended => set_waiters (waiters s ++ [w]) s
    end.
Proof.
  intros. unfold awaitContext, initAudioContext.
  destruct (audioContextInstance s) as [[|] |]; reflexivity.
Qed.

(** ** Malformed envelopes and ignored audio *)

(** C8. A malformed inbound envelope (text that does not parse, or a type tag
    that no case of the switch knows) is dropped and logged: the state after
    the handler is the state before it with console lines added, and the
    socket keeps its ready state, so an open connection stays open. *)
Theorem malformed_envelope_dropped :
  forall (f : Frame) (s : State),
    malformed f ->
    exists lines : list string,
      lines <> [] /\
      step (Message f) s = set_console (console s ++ lines) s /\
      websocket (step (Message f) s) = websocket s.
Proof.
  intros [| ty d] s H; simpl in H.
  - exists ["Error parsing WebSocket message:"].
    split; [discriminate | split; reflexivity].
  - exists ["Received message:"; "Unknown message type:"].
    split; [discriminate |].
    simpl. unfold dispatch. rewrite (unknownTag_caseOf ty H).
    destruct s; simpl. unfold log, set_console; simpl.
    rewrite <- app_assoc. split; reflexivity.
Qed.

Lemma malformed_envelope_dropped_witness :
  exists lines : list string,
    lines <> [] /\
    step (Message (Parsed (Some "ping") None)) (run voiceOn initial) =
    set_console (console (run voiceOn initial) ++ lines) (run voiceOn initial) /\
    websocket (step (Message (Parsed (Some "ping") None)) (run voiceOn initial)) =
    websocket (run voiceOn initial).
Proof.
  apply (malformed_envelope_dropped (Parsed (Some "ping") None)).
  simpl. intros t. destruct t; discriminate.
Defined.

(** C10. An [audio_output] message that arrives while voice mode is off, or
    whose payload carries no audio, changes nothing but the console: no call
    of [playAudio] is made or left waiting, nothing is enqueued, no source is
    started, and the listening, agent-speaking and pending flags keep their
    values. *)
Theorem audio_output_ignored :
  forall (d : option Data) (s : State),
    isVoiceModeActive s = false \/ lacksAudio d ->
    let s' := step (Message (Parsed (Some "audio_output") d)) s in
    (exists lines : list string, s' = set_console (console s ++ lines) s) /\
    waiters s' = waiters s /\ arrivals s' = arrivals s /\
    audioQueue s' = audioQueue s /\
    rendering s' = rendering s /\ started s' = started s /\
    isListening s' = isListening s /\
    isAgentSpeaking s' = isAgentSpeaking s /\
    pendingAgentDone s' = pendingAgentDone s.
Proof.
  intros d s H.
  assert (E : step (Message (Parsed (Some "audio_output") d)) s =
              set_console
                (console s ++
                 ["Received message:";
                  match d with
                  | None => "Error parsing WebSocket message:"
                  | Some _ => "[AUDIO_OUTPUT] Received"
                  end]) s).
  { simpl. unfold dispatch. change (caseOf (Some "audio_output")) with (Some t_audio_output).
    unfold handleAudioOutput. destruct d as [data |].
    - destruct (hasAudio data) as [c |] eqn:A.
      + destruct H as [H | H]; [| simpl in H; congruence].
        unfold log at 1 2. simpl. rewrite H.
        destruct s; unfold log, set_console; simpl.
        now rewrite <- app_assoc.
      + destruct s; unfold log, set_console; simpl.
        now rewrite <- app_assoc.
    - destruct s; unfold log, set_console; simpl.
      now rewrite <- app_assoc. }
  cbv zeta. rewrite E. split; [eexists; reflexivity |].
  repeat split.
Qed.

Lemma audio_output_ignored_witness :
  let s' := step audioOutput initial in
  (exists lines : list string,
     s' = set_console (console initial ++ lines) initial) /\
  waiters s' = waiters initial /\ arrivals s' = arrivals initial /\
  audioQueue s' = audioQueue initial /\
  rendering s' = rendering initial /\ started s' = started initial /\
  isListening s' = isListening initial /\
  isAgentSpeaking s' = isAgentSpeaking initial /\
  pendingAgentDone s' = pendingAgentDone initial.
Proof.
  apply (audio_output_ignored someAudio initial).
  left. reflexivity.
Defined.

(** ** Interrupt, clear and stop *)

Lemma socketOpen_log : forall line s, socketOpen (log line s) = socketOpen s.
Proof. reflexivity. Qed.

(** What the interrupt handler does once its guard is passed. *)
Lemma clickInterrupt_speaking :
  forall s,
    isVoiceModeActive s = true ->
    isAgentSpeaking s = true ->
    let s' := clickInterrupt s in
    audioQueue s' = [] /\ isProcessingAudio s' = false /\
    pendingAgentDone s' = false /\
    isVoiceModeActive s' = true /\ isListening s' = true /\
    isAgentSpeaking s' = false /\
    rendering s' = rendering s /\
    wire s' = wire s ++ (if socketOpen s then [interruptNotice s] else []).
Proof.
  intros s V A. unfold clickInterrupt. rewrite V, A. simpl.
  unfold resumeListening, clearAudioQueue, sendWebSocketMessage.
  rewrite socketOpen_log.
  destruct (socketOpen s); simpl; rewrite V; simpl;
    repeat split; try reflexivity; try assumption; now rewrite app_nil_r.
Qed.

Lemma clickInterrupt_idle :
  forall s,
    isVoiceModeActive s = false \/ isAgentSpeaking s = false ->
    clickInterrupt s = s.
Proof.
  intros s [H | H]; unfold clickInterrupt; rewrite H; simpl;
    [| rewrite orb_true_r]; reflexivity.
Qed.

(** C4 as stated fails in LISTENING: with voice mode on, the socket open and
    the agent silent, a click on the interrupt button sends nothing. *)
Lemma interrupt_while_listening_is_silent :
  let s := run voiceOn initial in
  LISTENING s = true /\ socketOpen s = true /\
  wire (step ClickInterrupt s) = [] /\
  step ClickInterrupt s = s.
Proof. vm_compute. repeat split. Qed.

(** C4, amended. With voice mode on and the agent-speaking flag set, the
    interrupt handler empties the playback queue, clears the pending flag,
    turns capture on (the state is LISTENING) and sends exactly one interrupt
    envelope when the socket is open, none when it is not; with the flag
    down the click is ignored. *)
Theorem interrupt_hands_turn_back :
  forall s : State,
    isVoiceModeActive s = true ->
    let s' := step ClickInterrupt s in
    (isAgentSpeaking s = true ->
       audioQueue s' = [] /\ pendingAgentDone s' = false /\
       LISTENING s' = true /\ isAgentSpeaking s' = false /\
       wire s' = wire s ++ (if socketOpen s then [interruptNotice s] else [])) /\
    (isAgentSpeaking s = false -> s' = s).
Proof.
  intros s V. cbv zeta. split; intros A; simpl.
  - destruct (clickInterrupt_speaking s V A) as (Q & _ & P & V' & L & A' & _ & W).
    unfold LISTENING. rewrite V', L. now repeat split.
  - apply clickInterrupt_idle. now right.
Qed.

Lemma interrupt_hands_turn_back_witness :
  let s := run (voiceOn ++ [audioOutput; audioOutput]) initial in
  let s' := step ClickInterrupt s in
  isVoiceModeActive s = true /\ isAgentSpeaking s = true /\
  audioQueue s' = [] /\ pendingAgentDone s' = false /\
  LISTENING s' = true /\ isAgentSpeaking s' = false /\
  wire s' = wire s ++ (if socketOpen s then [interruptNotice s] else []).
Proof.
  split; [reflexivity |]. split; [reflexivity |].
  apply (interrupt_hands_turn_back
           (run (voiceOn ++ [audioOutput; audioOutput]) initial));
    reflexivity.
Defined.

(** A completion that arrives when nothing is queued and nothing is pending
    resumes nothing. *)
Lemma sourceEnded_nothing_pending :
  forall n s,
    audioQueue s = [] -> pendingAgentDone s = false ->
    resumes (sourceEnded n s) = resumes s /\
    isListening (sourceEnded n s) = isListening s /\
    pendingAgentDone (sourceEnded n s) = false.
Proof.
  intros n s Q P. unfold sourceEnded.
  destruct (isPlaying n s); [| now repeat split].
  unfold nextBuffer. simpl. rewrite Q. unfold queueDrained. simpl. rewrite P.
  repeat split; trivial.
  unfold resumes. simpl. rewrite count_occ_app. simpl. lia.
Qed.





(** C2 as stated fails.  After [clearAudioQueue] the source that was playing
    is still playing and no queue-drained signal has been given.  Its late
    completion is not suppressed either: after an interrupt, a new chunk and
    a new [agent_done], the end of the old source runs the queue-drained
    handover of the new generation, and capture is on while the new buffer
    renders. *)
Lemma clear_leaves_source_and_late_completion :
  let s := run (voiceOn ++ [audioOutput]) initial in
  rendering (clearAudioQueue s) = [mkBuffer 0 "UklGRg=="] /\
  drains (clearAudioQueue s) = drains s /\
  let t := run (voiceOn ++ [audioOutput; ClickInterrupt; audioOutput; agentDone])
               initial in
  let t' := step (SourceEnded 0) t in
  pendingAgentDone t = true /\ isListening t = false /\
  rendering t' = [mkBuffer 1 "UklGRg=="] /\
  isListening t' = true /\ drains t' = S (drains t).
Proof. vm_compute. repeat split. Qed.

(** C2, amended. [clearAudioQueue] drops every buffer that waits in the queue
    and lowers the active-rendering and pending flags.  It gives no
    queue-drained signal and resumes nothing itself (the interrupt handler
    resumes listening on its own), and a completion that arrives next finds
    nothing pending: it resumes nothing. *)
Theorem clear_audio_queue_effect :
  forall s : State,
    let s' := clearAudioQueue s in
    audioQueue s' = [] /\ isProcessingAudio s' = false /\
    pendingAgentDone s' = false /\
    drains s' = drains s /\ resumes s' = resumes s /\
    isListening s' = isListening s /\
    isAgentSpeaking s' = isAgentSpeaking s /\
    forall n,
      resumes (step (SourceEnded n) s') = resumes s /\
      isListening (step (SourceEnded n) s') = isListening s /\
      pendingAgentDone (step (SourceEnded n) s') = false.
Proof.
  intros s. cbv zeta.
  assert (R : resumes (clearAudioQueue s) = resumes s).
  { unfold clearAudioQueue. simpl.
    change (resumes (log "[AUDIO] Clearing audio queue" s) = resumes s).
    rewrite resumes_log. simpl. lia. }
  assert (D : drains (clearAudioQueue s) = drains s).
  { unfold drains, clearAudioQueue. simpl. rewrite count_occ_app. simpl. lia. }
  repeat split; trivial;
    destruct (sourceEnded_nothing_pending n (clearAudioQueue s) eq_refl eq_refl)
      as (E1 & E2 & E3); simpl.
  - now rewrite E1.
  - now rewrite E2.
  - exact E3.
Qed.

(** ** Turn handover at the end of the agent's speech *)

Lemma sourceEnded_single :
  forall b t,
    rendering t = [b] ->
    sourceEnded (arrival b) t = nextBuffer (set_rendering [] t).
Proof.
  intros b t R. unfold sourceEnded, isPlaying. rewrite R. simpl.
  now rewrite Nat.eqb_refl.
Qed.

(** With the pending flag up and one source rendering, the completions of
    that source and of the queued buffers, one after the other, resume
    listening at the last of them and not before. *)
Lemma drain_pending :
  forall q b t,
    rendering t = [b] -> audioQueue t = q ->
    pendingAgentDone t = true -> isVoiceModeActive t = true ->
    (forall k, k < List.length (b :: q) ->
       let u := run (firstn k (completions (b :: q))) t in
       resumes u = resumes t /\ isListening u = isListening t /\
       pendingAgentDone u = true) /\
    (let u := run (completions (b :: q)) t in
     resumes u = S (resumes t) /\ drains u = S (drains t) /\
     isListening u = true /\ pendingAgentDone u = false /\
     isAgentSpeaking u = false /\ audioQueue u = [] /\ rendering u = []).
Proof.
  induction q as [| b' q IH]; intros b t R Q P V.
  - split.
    + intros k Hk. simpl in Hk. assert (k = 0) by lia. subst k.
      simpl. now repeat split.
    + simpl. rewrite (sourceEnded_single b t R).
      unfold nextBuffer. simpl. rewrite Q.
      unfold queueDrained. simpl. rewrite P. simpl.
      unfold resumeListening. simpl. rewrite V. simpl.
      unfold resumes, drains. simpl.
      rewrite !count_occ_app. simpl. repeat split; trivial; lia.
  - assert (E : step (SourceEnded (arrival b)) t =
                set_started (started t ++ [b'])
                  (set_rendering [b'] (set_audioQueue q (set_rendering [] t)))).
    { simpl. rewrite (sourceEnded_single b t R).
      unfold nextBuffer. simpl. now rewrite Q. }
    destruct (IH b' (step (SourceEnded (arrival b)) t)) as [I1 I2];
      try (rewrite E; simpl; trivial).
    split.
    + intros [| k] Hk.
      * simpl. now repeat split.
      * change (firstn (S k) (completions (b :: b' :: q)))
          with (SourceEnded (arrival b) :: firstn k (completions (b' :: q))).
        rewrite run_cons. cbv zeta.
        destruct (I1 k) as (A1 & A2 & A3); [simpl in *; lia |].
        repeat split; try assumption.
        -- rewrite A1, E. reflexivity.
        -- rewrite A2, E. reflexivity.
    + change (completions (b :: b' :: q))
        with (SourceEnded (arrival b) :: completions (b' :: q)).
      rewrite run_cons. cbv zeta in *.
      destruct I2 as (A1 & A2 & A3 & A4 & A5 & A6 & A7).
      repeat split; try assumption.
      * rewrite A1, E. reflexivity.
      * rewrite A2, E. reflexivity.
Qed.

(** What [handleAgentDone] does by its own test.  In voice mode listening
    resumes at once exactly when the playback queue is empty and the
    rendering flag is down.  Otherwise the pending flag is raised and nothing
    resumes yet: with one source rendering, the completions of that source
    and of the queued buffers leave the turn with the agent until the last of
    them, where the queue-drained branch resumes listening, once. *)
Theorem agent_done_handover :
  forall (d : option Data) (s : State),
    isVoiceModeActive s = true ->
    let s' := step (Message (Parsed (Some "agent_done") d)) s in
    (audioQueue s = [] /\ isProcessingAudio s = false ->
       resumes s' = S (resumes s) /\ isListening s' = true /\
       isAgentSpeaking s' = false /\
       pendingAgentDone s' = pendingAgentDone s) /\
    (audioQueue s <> [] \/ isProcessingAudio s = true ->
       resumes s' = resumes s /\ isListening s' = isListening s /\
       pendingAgentDone s' = true /\
       forall b,
         rendering s = [b] ->
         (forall k, k < List.length (b :: audioQueue s) ->
            let u := run (firstn k (completions (b :: audioQueue s))) s' in
            resumes u = resumes s /\ isListening u = isListening s /\
            pendingAgentDone u = true) /\
         (let u := run (completions (b :: audioQueue s)) s' in
          resumes u = S (resumes s) /\ drains u = S (drains s) /\
          isListening u = true /\
          pendingAgentDone u = false /\ isAgentSpeaking u = false /\
          audioQueue u = [] /\ rendering u = [])).
Proof.
  intros d s V. cbv zeta. simpl. unfold dispatch.
  change (caseOf (Some "agent_done")) with (Some t_agent_done). cbv iota.
  unfold handleAgentDone. simpl. split.
  - intros [Q P]. rewrite Q, P. simpl. rewrite V.
    unfold resumeListening. simpl. rewrite V. simpl.
    unfold resumes. simpl. rewrite !count_occ_app. simpl.
    repeat split; lia.
  - intros H.
    assert (G : (0 <? List.length (audioQueue s)) || isProcessingAudio s = true).
    { destruct H as [H | H]; [| rewrite H; apply orb_true_r].
      destruct (audioQueue s); [congruence | reflexivity]. }
    rewrite G.
    set (s' := set_pendingAgentDone true _).
    assert (R : resumes s' = resumes s).
    { unfold s', resumes. simpl. rewrite !count_occ_app. simpl. lia. }
    assert (D : drains s' = drains s).
    { unfold s', drains. simpl. rewrite !count_occ_app. simpl. lia. }
    split; [exact R |]. split; [reflexivity |]. split; [reflexivity |].
    intros b Rb.
    destruct (drain_pending (audioQueue s) b s') as [I1 I2]; trivial.
    split.
    + intros k Hk. destruct (I1 k Hk) as (A1 & A2 & A3).
      split; [exact (eq_trans A1 R) |]. split; [exact A2 | exact A3].
    + cbv zeta in I2. destruct I2 as (A1 & A2 & A3 & A4 & A5 & A6 & A7).
      split; [exact (eq_trans A1 (f_equal S R)) |].
      split; [exact (eq_trans A2 (f_equal S D)) |].
      repeat split; assumption.
Qed.

Lemma agent_done_handover_witness :
  let s := run (voiceOn ++ [audioOutput; audioOutput; audioOutput]) initial in
  let s' := step agentDone s in
  let u := run [SourceEnded 0; SourceEnded 1; SourceEnded 2] s' in
  isVoiceModeActive s = true /\
  resumes s' = resumes s /\ pendingAgentDone s' = true /\
  resumes (run [SourceEnded 0; SourceEnded 1] s') = resumes s /\
  resumes u = S (resumes s) /\ isListening u = true /\
  pendingAgentDone u = false /\ isAgentSpeaking u = false.
Proof.
  intros s s' u.
  assert (V : isVoiceModeActive s = true) by (vm_compute; reflexivity).
  destruct (agent_done_handover None s V) as [_ H].
  destruct H as (R & _ & P & H); [right; vm_compute; reflexivity |].
  destruct (H (mkBuffer 0 "UklGRg==")) as [B F]; [vm_compute; reflexivity |].
  destruct (B 2) as (B1 & _); [vm_compute; lia |].
  destruct F as (F1 & _ & F3 & F4 & F5 & _).
  split; [exact V |]. split; [exact R |]. split; [exact P |].
  split; [exact B1 |]. split; [exact F1 |]. split; [exact F3 |].
  split; [exact F4 | exact F5].
Defined.

(** ** The pending flag and the agent-speaking flag *)

Ltac steady_tac :=
  unfold steady in *; simpl in *; intuition (try congruence).

Lemma awaitContext_ready :
  forall w k s,
    audioContextInstance s <> Some Suspended ->
    awaitContext w k s = k s \/
    awaitContext w k s = k (set_audioContextInstance (Some Running) s).
Proof.
  intros w k s H. unfold awaitContext, initAudioContext.
  destruct (audioContextInstance s) as [[|] |]; simpl; auto.
  congruence.
Qed.

Lemma steady_context : forall s, steady s -> steady (set_audioContextInstance (Some Running) s).
Proof. intros s H. steady_tac. Qed.

Lemma steady_nextBuffer : forall s, steady s -> steady (nextBuffer s).
Proof.
  intros s H. unfold nextBuffer.
  destruct (audioQueue s) as [| b rest] eqn:Q.
  - unfold queueDrained. simpl.
    destruct (pendingAgentDone s) eqn:P; simpl.
    + unfold resumeListening. simpl.
      destruct (isVoiceModeActive s); steady_tac.
    + steady_tac.
  - steady_tac.
Qed.

Lemma steady_processAudioQueue :
  forall s,
    audioContextInstance s <> Some Suspended -> waiters s = [] ->
    isAgentSpeaking s = true ->
    (pendingAgentDone s = true -> isProcessingAudio s = true) ->
    steady (processAudioQueue s).
Proof.
  intros s C W A K. unfold processAudioQueue.
  destruct (isProcessingAudio s) eqn:P; simpl.
  - steady_tac.
  - destruct (audioQueue s) as [| b rest] eqn:Q; simpl.
    + steady_tac.
    + destruct (awaitContext_ready WProc nextBuffer (set_isProcessingAudio true s))
        as [E | E]; [exact C | |]; rewrite E; unfold nextBuffer; simpl;
        rewrite Q; steady_tac.
Qed.

Lemma steady_playAudio :
  forall c s, steady s -> isAgentSpeaking s = true -> steady (playAudio c s).
Proof.
  intros c s H A. unfold playAudio.
  assert (D : forall t, steady t -> isAgentSpeaking t = true ->
                        steady (playAudioDecoded c t)).
  { intros t Ht At. unfold playAudioDecoded. destruct (decodes c).
    - apply steady_processAudioQueue; steady_tac.
    - steady_tac. }
  destruct (awaitContext_ready (WPlay c) (playAudioDecoded c) s) as [E | E];
    [steady_tac | |]; rewrite E; apply D; trivial.
  now apply steady_context.
Qed.

Lemma steady_resetUIState : forall s, steady s -> steady (resetUIState s).
Proof.
  intros s H. unfold resetUIState.
  destruct (isRecording s || isVoiceModeActive s); steady_tac.
Qed.

Lemma steady_message : forall f s, steady s -> steady (handleWebSocketMessage f s).
Proof.
  intros [| ty d] s H; simpl; [steady_tac |].
  unfold dispatch. destruct (caseOf ty) as [[] |]; simpl.
  - destruct d; steady_tac.
  - unfold handleSessionEnded. apply steady_resetUIState. steady_tac.
  - destruct d; steady_tac.
  - unfold handlePartialTranscript. destruct d as [data |]; [| steady_tac].
    destruct (role data) as [r |]; [| steady_tac].
    destruct (String.eqb r "assistant" && _); steady_tac.
  - unfold handleUserTranscript. destruct d as [data |]; [| steady_tac].
    simpl. destruct (isVoiceModeActive s); steady_tac.
  - unfold handleAudioOutput. destruct d as [data |]; [| steady_tac].
    destruct (hasAudio data) as [c |]; [| steady_tac].
    simpl. destruct (isVoiceModeActive s); [| steady_tac].
    destruct (isAgentSpeaking s) eqn:A; simpl.
    + apply steady_playAudio; steady_tac.
    + apply steady_playAudio; [| reflexivity].
      unfold steady in *. simpl. intuition congruence.
  - destruct d; steady_tac.
  - destruct d; steady_tac.
  - destruct d; steady_tac.
  - destruct d; steady_tac.
  - unfold handleAgentSpeaking. simpl. destruct (isVoiceModeActive s); steady_tac.
  - unfold handleAgentDone. simpl.
    destruct (audioQueue s) as [| b rest] eqn:Q; simpl.
    + destruct (isProcessingAudio s) eqn:P; simpl.
      * steady_tac.
      * unfold resumeListening. simpl.
        destruct (isVoiceModeActive s); simpl; steady_tac.
    + steady_tac.
  - destruct d; steady_tac.
  - steady_tac.
Qed.

Lemma steady_step :
  forall e s, e <> ContextSuspended -> steady s -> steady (step e s).
Proof.
  intros e s N H. destruct e; simpl; try congruence.
  - unfold connectWebSocket. destruct (socketOpen s); steady_tac.
  - unfold clickEnd. apply steady_resetUIState.
    unfold sendWebSocketMessage. destruct (socketOpen s); steady_tac.
  - unfold socketOpened. destruct (websocket s) as [[] |]; steady_tac.
  - unfold socketClosed. apply steady_resetUIState.
    destruct (websocket s); steady_tac.
  - steady_tac.
  - now apply steady_message.
  - unfold clickVoiceToggle.
    destruct (isConnected s); simpl; [| exact H].
    destruct (isVoiceModeActive s); steady_tac.
  - unfold micGranted. destruct (micRequests s) as [| n]; [exact H |].
    destruct (awaitContext_ready WVoice voiceStarted
                (set_mediaStream true (set_micRequests n s))) as [E | E];
      [steady_tac | |]; rewrite E; steady_tac.
  - unfold micDenied. destruct (micRequests s); steady_tac.
  - unfold onaudioprocess, sendWebSocketMessage.
    destruct (audioProcessor s); [| exact H].
    destruct (negb (isVoiceModeActive s) || negb (isListening s)); [exact H |].
    destruct (socketOpen s); steady_tac.
  - unfold clickInterrupt.
    destruct (negb (isVoiceModeActive s) || negb (isAgentSpeaking s)); [exact H |].
    unfold resumeListening, clearAudioQueue, sendWebSocketMessage. simpl.
    destruct (socketOpen _); simpl; destruct (isVoiceModeActive s); steady_tac.
  - unfold sourceEnded. destruct (isPlaying n s); [| exact H].
    apply steady_nextBuffer. steady_tac.
  - unfold contextResumed.
    destruct (audioContextInstance s) as [[|] |] eqn:C; try exact H.
    steady_tac.
  - steady_tac.
Qed.

Lemma steady_run :
  forall es s, contextKeptRunning es -> steady s -> steady (run es s).
Proof.
  induction es as [| e es IH]; intros s K H; simpl; [exact H |].
  apply IH.
  - intros I. apply K. now right.
  - apply steady_step; [| exact H]. intros ->. apply K. now left.
Qed.

(** C9 as stated fails.  The context is suspended when a chunk arrives, so
    [playAudio] waits; [agent_done] finds nothing queued and lowers the
    agent-speaking flag; the chunk is enqueued when the context runs again,
    and a second [agent_done] raises the pending flag. *)
Lemma pending_without_agent_speaking :
  let s := run (voiceOn ++ [ContextSuspended; audioOutput; agentDone;
                            ContextResumed; agentDone]) initial in
  pendingAgentDone s = true /\ isAgentSpeaking s = false.
Proof. vm_compute. split; reflexivity. Qed.

(** C9, amended. In every state reached by a run during which the audio
    context is never suspended, so that each chunk is enqueued within the
    task that received it, a raised pending flag implies a raised
    agent-speaking flag. *)
Theorem pending_implies_agent_speaking :
  forall es : list Event,
    contextKeptRunning es ->
    pendingAgentDone (run es initial) = true ->
    isAgentSpeaking (run es initial) = true.
Proof.
  intros es K P.
  assert (H : steady (run es initial)).
  { apply steady_run; [exact K |]. unfold steady. simpl.
    repeat split; congruence. }
  unfold steady in H. intuition.
Qed.

Lemma pending_implies_agent_speaking_witness :
  let es := voiceOn ++ [audioOutput; audioOutput; agentDone] in
  contextKeptRunning es /\
  pendingAgentDone (run es initial) = true /\
  isAgentSpeaking (run es initial) = true.
Proof.
  intros es.
  assert (K : contextKeptRunning es).
  { unfold contextKeptRunning, es. simpl. intuition discriminate. }
  assert (P : pendingAgentDone (run es initial) = true)
    by (vm_compute; reflexivity).
  split; [exact K |]. split; [exact P |].
  exact (pending_implies_agent_speaking es K P).
Defined.

(** ** Capture and the agent's turn *)

(** With the script processor connected, the capture callback sends the
    frame it is given exactly when voice mode is on and the listening flag
    is up, over an open socket, and sends nothing otherwise. *)
Theorem capture_gate :
  forall a s,
    audioProcessor s = true ->
    wire (step (AudioProcess a) s) =
    wire s ++
    (if LISTENING s && socketOpen s
     then [mkEnvelope "audio_input" (AudioPayload a) (now s)] else []).
Proof.
  intros a s H. simpl. unfold onaudioprocess, LISTENING, sendWebSocketMessage.
  rewrite H.
  destruct (isVoiceModeActive s), (isListening s), (socketOpen s); simpl;
    now rewrite ?app_nil_r.
Qed.

Ltac liv_tac := unfold listensInVoiceMode in *; cbn in *; intuition congruence.

Lemma liv_nextBuffer :
  forall s, listensInVoiceMode s -> listensInVoiceMode (nextBuffer s).
Proof.
  intros s H. unfold nextBuffer. destruct (audioQueue s); [| liv_tac].
  unfold queueDrained. cbn. destruct (pendingAgentDone s); [| liv_tac].
  cbn. destruct (isVoiceModeActive s) eqn:V; [| liv_tac].
  unfold resumeListening. cbn. rewrite V. liv_tac.
Qed.

Lemma liv_awaitContext :
  forall w k s,
    (forall t, listensInVoiceMode t -> listensInVoiceMode (k t)) ->
    listensInVoiceMode s -> listensInVoiceMode (awaitContext w k s).
Proof.
  intros w k s K H. rewrite awaitContext_eq.
  destruct (audioContextInstance s) as [[|] |].
  - now apply K.
  - liv_tac.
  - apply K. liv_tac.
Qed.

Lemma liv_processAudioQueue :
  forall s, listensInVoiceMode s -> listensInVoiceMode (processAudioQueue s).
Proof.
  intros s H. unfold processAudioQueue.
  destruct (isProcessingAudio s || _); [exact H |].
  apply liv_awaitContext; [apply liv_nextBuffer | liv_tac].
Qed.

Lemma liv_playAudioDecoded :
  forall c s, listensInVoiceMode s -> listensInVoiceMode (playAudioDecoded c s).
Proof.
  intros c s H. unfold playAudioDecoded. destruct (decodes c); [| liv_tac].
  apply liv_processAudioQueue. liv_tac.
Qed.

Lemma liv_resumeWaiter :
  forall w s, listensInVoiceMode s -> listensInVoiceMode (resumeWaiter w s).
Proof.
  intros [c | |] s H; simpl.
  - now apply liv_playAudioDecoded.
  - now apply liv_nextBuffer.
  - liv_tac.
Qed.

Lemma liv_resetUIState :
  forall s, listensInVoiceMode s -> listensInVoiceMode (resetUIState s).
Proof.
  intros s H. unfold resetUIState.
  destruct (isRecording s || isVoiceModeActive s); liv_tac.
Qed.

Lemma liv_resumeListening :
  forall s, listensInVoiceMode s -> listensInVoiceMode (resumeListening s).
Proof.
  intros s H. unfold resumeListening. cbn.
  destruct (isVoiceModeActive s) eqn:V; liv_tac.
Qed.

Lemma liv_sendWebSocketMessage :
  forall ty d s,
    listensInVoiceMode s -> listensInVoiceMode (sendWebSocketMessage ty d s).
Proof.
  intros ty d s H. unfold sendWebSocketMessage. destruct (socketOpen s); liv_tac.
Qed.

Lemma liv_message :
  forall f s,
    listensInVoiceMode s -> listensInVoiceMode (handleWebSocketMessage f s).
Proof.
  intros [| ty d] s H; simpl; [liv_tac |].
  unfold dispatch. destruct (caseOf ty) as [[] |]; simpl.
  - destruct d; liv_tac.
  - unfold handleSessionEnded. apply liv_resetUIState. liv_tac.
  - destruct d; liv_tac.
  - unfold handlePartialTranscript. destruct d as [data |]; [| liv_tac].
    destruct (role data) as [r |]; [| liv_tac].
    destruct (String.eqb r "assistant" && _); liv_tac.
  - unfold handleUserTranscript. destruct d as [data |]; [| liv_tac].
    cbn. destruct (isVoiceModeActive s); liv_tac.
  - unfold handleAudioOutput. destruct d as [data |]; [| liv_tac].
    destruct (hasAudio data) as [c |]; [| liv_tac].
    cbn. destruct (isVoiceModeActive s) eqn:V; [| liv_tac].
    unfold playAudio.
    apply liv_awaitContext; [apply liv_playAudioDecoded |].
    destruct (isAgentSpeaking s); liv_tac.
  - destruct d; liv_tac.
  - destruct d; liv_tac.
  - destruct d; liv_tac.
  - destruct d; liv_tac.
  - unfold handleAgentSpeaking. cbn. destruct (isVoiceModeActive s); liv_tac.
  - unfold handleAgentDone. cbn.
    destruct (_ || isProcessingAudio s); cbn; [liv_tac |].
    destruct (isVoiceModeActive s) eqn:V; [| liv_tac].
    apply liv_resumeListening. liv_tac.
  - destruct d; liv_tac.
  - liv_tac.
Qed.

Lemma liv_step :
  forall e s, listensInVoiceMode s -> listensInVoiceMode (step e s).
Proof.
  intros e s H. destruct e; simpl.
  - unfold connectWebSocket. destruct (socketOpen s); liv_tac.
  - unfold clickEnd. apply liv_resetUIState.
    assert (listensInVoiceMode (sendWebSocketMessage "end_session" NoPayload s))
      by now apply liv_sendWebSocketMessage.
    liv_tac.
  - unfold socketOpened. destruct (websocket s) as [[] |]; liv_tac.
  - unfold socketClosed. apply liv_resetUIState.
    destruct (websocket s); liv_tac.
  - liv_tac.
  - now apply liv_message.
  - unfold clickVoiceToggle.
    destruct (isConnected s); cbn; [| exact H].
    destruct (isVoiceModeActive s); liv_tac.
  - unfold micGranted. destruct (micRequests s) as [| n]; [exact H |].
    apply liv_awaitContext; liv_tac.
  - unfold micDenied. destruct (micRequests s); liv_tac.
  - unfold onaudioprocess.
    destruct (audioProcessor s); [| exact H].
    destruct (negb (isVoiceModeActive s) || negb (isListening s)); [exact H |].
    now apply liv_sendWebSocketMessage.
  - unfold clickInterrupt.
    destruct (negb (isVoiceModeActive s) || negb (isAgentSpeaking s)); [exact H |].
    apply liv_resumeListening.
    assert (listensInVoiceMode
              (sendWebSocketMessage "interrupt" NoPayload
                 (log "[INTERRUPT] User interrupted agent" s)))
      by (apply liv_sendWebSocketMessage; liv_tac).
    liv_tac.
  - unfold sourceEnded. destruct (isPlaying n s); [| exact H].
    apply liv_nextBuffer. liv_tac.
  - unfold contextSuspended.
    destruct (audioContextInstance s) as [[|] |]; liv_tac.
  - unfold contextResumed.
    destruct (audioContextInstance s) as [[|] |]; try exact H.
    assert (W : forall ws t,
               listensInVoiceMode t ->
               listensInVoiceMode
                 (fold_left (fun st w => resumeWaiter w st) ws t)).
    { induction ws as [| w ws IH]; intros t Ht; simpl; [exact Ht |].
      apply IH. now apply liv_resumeWaiter. }
    apply W. liv_tac.
  - liv_tac.
Qed.

Lemma reachable_listens : forall s, reachable s -> listensInVoiceMode s.
Proof.
  induction 1 as [| e s R IH]; [discriminate |].
  now apply liv_step.
Qed.

(** In every reachable state the listening flag is up only while voice mode
    is on. *)
Theorem listening_in_voice_mode :
  forall s, reachable s -> isListening s = true -> isVoiceModeActive s = true.
Proof. exact reachable_listens. Qed.

Lemma listening_in_voice_mode_witness :
  reachable (run voiceOn initial) /\
  isListening (run voiceOn initial) = true /\
  isVoiceModeActive (run voiceOn initial) = true.
Proof.
  assert (R : reachable (run voiceOn initial))
    by (apply reachable_run; constructor).
  assert (L : isListening (run voiceOn initial) = true) by reflexivity.
  split; [exact R |]. split; [exact L |].
  exact (listening_in_voice_mode (run voiceOn initial) R L).
Defined.

Lemma capture_gate_witness :
  let s := run voiceOn initial in
  audioProcessor s = true /\
  wire (step (AudioProcess "AAA=") s) =
  wire s ++
  (if LISTENING s && socketOpen s
   then [mkEnvelope "audio_input" (AudioPayload "AAA=") (now s)] else []).
Proof.
  intros s.
  assert (A : audioProcessor s = true) by reflexivity.
  split; [exact A |].
  exact (capture_gate "AAA=" s A).
Defined.

(** C5 fails on the code.  Voice mode is stopped and started again while the
    agent speaks: [startVoiceMode] raises the listening flag and leaves the
    agent-speaking flag up, so LISTENING and AGENT_SPEAKING hold together and
    the next captured frame is sent while the agent's buffer renders. *)
Lemma listening_while_agent_speaking :
  let s := run (voiceOn ++ [audioOutput; ClickVoiceToggle; ClickVoiceToggle;
                            MicGranted]) initial in
  LISTENING s = true /\ AGENT_SPEAKING s = true /\
  rendering s = [mkBuffer 0 "UklGRg=="] /\
  wire (step (AudioProcess "AAA=") s) =
  [mkEnvelope "audio_input" (AudioPayload "AAA=") 0].
Proof. vm_compute. repeat split. Qed.

(** ** One source at a time *)

(** C1 fails on the code.  A buffer renders, the user interrupts, and the
    next chunk arrives: [clearAudioQueue] has lowered the rendering flag
    without stopping the source, so [processAudioQueue] starts a second
    source while the first still plays. *)
Lemma two_sources_after_interrupt :
  let s := run (voiceOn ++ [audioOutput; ClickInterrupt; audioOutput]) initial in
  rendering s = [mkBuffer 0 "UklGRg=="; mkBuffer 1 "UklGRg=="] /\
  isProcessingAudio s = true /\
  wire s = [mkEnvelope "interrupt" NoPayload 0].
Proof. vm_compute. repeat split. Qed.

(** *** Arrival order *)

Lemma ascending_weaken :
  forall tags n m, n <= m -> ascending n tags -> ascending m tags.
Proof.
  induction tags as [| x rest IH]; simpl; intros n m L H; [exact I |].
  destruct H as (H1 & H2 & H3). repeat split; [lia | exact H2 | eauto].
Qed.

Lemma ascending_below :
  forall tags n, ascending n tags -> Forall (fun m => m < n) tags.
Proof.
  induction tags as [| x rest IH]; simpl; intros n H; constructor.
  - apply H.
  - apply IH, H.
Qed.

Lemma ascending_snoc :
  forall tags n, ascending n tags -> ascending (S n) (tags ++ [n]).
Proof.
  induction tags as [| x rest IH]; simpl; intros n H.
  - repeat split; [lia | constructor].
  - destruct H as (H1 & H2 & H3). repeat split.
    + lia.
    + apply Forall_app. split; [exact H2 | now repeat constructor].
    + now apply IH.
Qed.

Lemma ascending_app_l :
  forall l1 l2 n, ascending n (l1 ++ l2) -> ascending n l1.
Proof.
  induction l1 as [| x rest IH]; simpl; intros l2 n H; [exact I |].
  destruct H as (H1 & H2 & H3). repeat split.
  - exact H1.
  - apply Forall_app in H2. apply H2.
  - eauto.
Qed.

Ltac fifo_tac := unfold fifo in *; cbn in *; trivial.

Lemma fifo_nextBuffer : forall s, fifo s -> fifo (nextBuffer s).
Proof.
  intros s H. unfold nextBuffer, fifo in *.
  destruct (audioQueue s) as [| b rest] eqn:Q.
  - unfold queueDrained. cbn. destruct (pendingAgentDone s); cbn.
    + destruct (isVoiceModeActive s) eqn:V; cbn.
      * unfold resumeListening. cbn. rewrite V. cbn. now rewrite Q.
      * now rewrite Q.
    + now rewrite Q.
  - cbn. now rewrite <- app_assoc.
Qed.

Lemma fifo_awaitContext :
  forall w k s,
    (forall t, fifo t -> fifo (k t)) -> fifo s -> fifo (awaitContext w k s).
Proof.
  intros w k s K H. rewrite awaitContext_eq.
  destruct (audioContextInstance s) as [[|] |].
  - now apply K.
  - fifo_tac.
  - apply K. fifo_tac.
Qed.

Lemma fifo_processAudioQueue : forall s, fifo s -> fifo (processAudioQueue s).
Proof.
  intros s H. unfold processAudioQueue.
  destruct (isProcessingAudio s || _); [exact H |].
  apply fifo_awaitContext; [apply fifo_nextBuffer | fifo_tac].
Qed.

Lemma fifo_playAudioDecoded :
  forall c s, fifo s -> fifo (playAudioDecoded c s).
Proof.
  intros c s H. unfold playAudioDecoded. destruct (decodes c); [| fifo_tac].
  apply fifo_processAudioQueue. fifo_tac.
  rewrite app_assoc, map_app. cbn. now apply ascending_snoc.
Qed.

Lemma fifo_resumeWaiter : forall w s, fifo s -> fifo (resumeWaiter w s).
Proof.
  intros [c | |] s H; simpl.
  - now apply fifo_playAudioDecoded.
  - now apply fifo_nextBuffer.
  - fifo_tac.
Qed.

Lemma fifo_resetUIState : forall s, fifo s -> fifo (resetUIState s).
Proof.
  intros s H. unfold resetUIState.
  destruct (isRecording s || isVoiceModeActive s); fifo_tac.
Qed.

Lemma fifo_sendWebSocketMessage :
  forall ty d s, fifo s -> fifo (sendWebSocketMessage ty d s).
Proof.
  intros ty d s H. unfold sendWebSocketMessage. destruct (socketOpen s); fifo_tac.
Qed.

Lemma fifo_resumeListening : forall s, fifo s -> fifo (resumeListening s).
Proof.
  intros s H. unfold resumeListening. cbn.
  destruct (isVoiceModeActive s); fifo_tac.
Qed.

Lemma fifo_message : forall f s, fifo s -> fifo (handleWebSocketMessage f s).
Proof.
  intros [| ty d] s H; simpl; [fifo_tac |].
  unfold dispatch. destruct (caseOf ty) as [[] |]; simpl.
  - destruct d; fifo_tac.
  - unfold handleSessionEnded. apply fifo_resetUIState. fifo_tac.
  - destruct d; fifo_tac.
  - unfold handlePartialTranscript. destruct d as [data |]; [| fifo_tac].
    destruct (role data) as [r |]; [| fifo_tac].
    destruct (String.eqb r "assistant" && _); fifo_tac.
  - unfold handleUserTranscript. destruct d as [data |]; [| fifo_tac].
    cbn. destruct (isVoiceModeActive s); fifo_tac.
  - unfold handleAudioOutput. destruct d as [data |]; [| fifo_tac].
    destruct (hasAudio data) as [c |]; [| fifo_tac].
    cbn. destruct (isVoiceModeActive s) eqn:V; [| fifo_tac].
    unfold playAudio.
    apply fifo_awaitContext; [apply fifo_playAudioDecoded |].
    destruct (isAgentSpeaking s); fifo_tac.
  - destruct d; fifo_tac.
  - destruct d; fifo_tac.
  - destruct d; fifo_tac.
  - destruct d; fifo_tac.
  - unfold handleAgentSpeaking. cbn. destruct (isVoiceModeActive s); fifo_tac.
  - unfold handleAgentDone. cbn.
    destruct (_ || isProcessingAudio s); cbn; [fifo_tac |].
    destruct (isVoiceModeActive s) eqn:V; [| fifo_tac].
    apply fifo_resumeListening. fifo_tac.
  - destruct d; fifo_tac.
  - fifo_tac.
Qed.

Lemma fifo_step : forall e s, fifo s -> fifo (step e s).
Proof.
  intros e s H. destruct e; simpl.
  - unfold connectWebSocket. destruct (socketOpen s); fifo_tac.
  - unfold clickEnd. apply fifo_resetUIState.
    assert (fifo (sendWebSocketMessage "end_session" NoPayload s))
      by now apply fifo_sendWebSocketMessage.
    fifo_tac.
  - unfold socketOpened. destruct (websocket s) as [[] |]; fifo_tac.
  - unfold socketClosed. apply fifo_resetUIState.
    destruct (websocket s); fifo_tac.
  - fifo_tac.
  - now apply fifo_message.
  - unfold clickVoiceToggle.
    destruct (isConnected s); cbn; [| exact H].
    destruct (isVoiceModeActive s); fifo_tac.
  - unfold micGranted. destruct (micRequests s) as [| n]; [exact H |].
    apply fifo_awaitContext; fifo_tac.
  - unfold micDenied. destruct (micRequests s); fifo_tac.
  - unfold onaudioprocess.
    destruct (audioProcessor s); [| exact H].
    destruct (negb (isVoiceModeActive s) || negb (isListening s)); [exact H |].
    now apply fifo_sendWebSocketMessage.
  - unfold clickInterrupt.
    destruct (negb (isVoiceModeActive s) || negb (isAgentSpeaking s)); [exact H |].
    apply fifo_resumeListening.
    assert (F : fifo (sendWebSocketMessage "interrupt" NoPayload
                        (log "[INTERRUPT] User interrupted agent" s)))
      by (apply fifo_sendWebSocketMessage; fifo_tac).
    unfold clearAudioQueue. fifo_tac.
    rewrite app_nil_r. rewrite map_app in F.
    now apply ascending_app_l in F.
  - unfold sourceEnded. destruct (isPlaying n s); [| exact H].
    apply fifo_nextBuffer. fifo_tac.
  - unfold contextSuspended.
    destruct (audioContextInstance s) as [[|] |]; fifo_tac.
  - unfold contextResumed.
    destruct (audioContextInstance s) as [[|] |]; try exact H.
    assert (W : forall ws t,
               fifo t -> fifo (fold_left (fun st w => resumeWaiter w st) ws t)).
    { induction ws as [| w ws IH]; intros t Ht; simpl; [exact Ht |].
      apply IH. now apply fifo_resumeWaiter. }
    apply W. fifo_tac.
  - fifo_tac.
Qed.

Lemma sources_start_in_arrival_order_aux :
  forall s : State, reachable s -> fifo s.
Proof.
  induction 1 as [| e s R IH]; [exact I |].
  now apply fifo_step.
Qed.

(** Whatever chunks, completions, interrupts and clears are interleaved, the
    sources are started in the order in which their buffers arrived, and a
    buffer still queued arrived after every buffer already started. *)
Theorem sources_start_in_arrival_order :
  forall s : State, reachable s -> fifo s.
Proof. exact sources_start_in_arrival_order_aux. Qed.

Lemma sources_start_in_arrival_order_witness :
  let s := run (voiceOn ++ [audioOutput; audioOutput; ClickInterrupt;
                            audioOutput; SourceEnded 0]) initial in
  reachable s /\ fifo s.
Proof.
  intros s.
  assert (R : reachable s) by (apply reachable_run; constructor).
  split; [exact R | exact (sources_start_in_arrival_order s R)].
Defined.

(** *** One live call without interrupt *)

Ltac calls_tac :=
  unfold calls, liveCalls in *; cbn in *; trivial; try lia.

Lemma filter_isProc_snoc :
  forall ws w,
    List.length (filter isProc (ws ++ [w])) =
    List.length (filter isProc ws) + (if isProc w then 1 else 0).
Proof.
  intros ws w. rewrite filter_app, length_app. simpl.
  destruct (isProc w); reflexivity.
Qed.

(** The call that goes on is the one counted outside the state. *)
Lemma calls_nextBuffer :
  forall k s, calls (S k) s -> calls k (nextBuffer s).
Proof.
  intros k s H. unfold calls, liveCalls in H.
  destruct (isProcessingAudio s) eqn:P; [| lia].
  assert (R : rendering s = []) by (destruct (rendering s); [easy | simpl in H; lia]).
  assert (K : k = 0) by lia. subst k.
  unfold nextBuffer. destruct (audioQueue s) as [| b rest].
  - unfold queueDrained. cbn. destruct (pendingAgentDone s); cbn.
    + destruct (isVoiceModeActive s) eqn:V; cbn.
      * unfold resumeListening. cbn. rewrite V. calls_tac.
      * calls_tac.
    + calls_tac.
  - calls_tac. rewrite P, R. simpl. rewrite R in H. simpl in H. lia.
Qed.

Lemma calls_processAudioQueue :
  forall k s, calls k s -> calls k (processAudioQueue s).
Proof.
  intros k s H. unfold processAudioQueue.
  destruct (isProcessingAudio s) eqn:P; cbn; [exact H |].
  destruct (List.length (audioQueue s) =? 0); [exact H |].
  rewrite awaitContext_eq. cbn.
  assert (C : forall t, calls (S k) t -> calls k (nextBuffer t))
    by (intros; now apply calls_nextBuffer).
  destruct (audioContextInstance s) as [[|] |].
  - apply C. calls_tac. rewrite P in H. lia.
  - calls_tac. rewrite P in H. rewrite filter_isProc_snoc. simpl. lia.
  - apply C. calls_tac. rewrite P in H. lia.
Qed.

Lemma calls_playAudioDecoded :
  forall c k s, calls k s -> calls k (playAudioDecoded c s).
Proof.
  intros c k s H. unfold playAudioDecoded. destruct (decodes c); [| calls_tac].
  apply calls_processAudioQueue. calls_tac.
Qed.

Lemma calls_awaitContext :
  forall w kont k s,
    isProc w = false ->
    (forall t, calls k t -> calls k (kont t)) ->
    calls k s -> calls k (awaitContext w kont s).
Proof.
  intros w kont k s W K H. rewrite awaitContext_eq.
  destruct (audioContextInstance s) as [[|] |].
  - now apply K.
  - calls_tac. rewrite filter_isProc_snoc, W. lia.
  - apply K. calls_tac.
Qed.

Lemma calls_resumeWaiters :
  forall ws t,
    calls (List.length (filter isProc ws)) t ->
    calls 0 (fold_left (fun st w => resumeWaiter w st) ws t).
Proof.
  induction ws as [| w ws IH]; intros t H; simpl; [exact H |].
  apply IH. destruct w as [c | |]; simpl in *.
  - now apply calls_playAudioDecoded.
  - now apply calls_nextBuffer.
  - calls_tac.
Qed.

Lemma calls_resetUIState : forall k s, calls k s -> calls k (resetUIState s).
Proof.
  intros k s H. unfold resetUIState.
  destruct (isRecording s || isVoiceModeActive s); calls_tac.
Qed.

Lemma calls_sendWebSocketMessage :
  forall ty d k s, calls k s -> calls k (sendWebSocketMessage ty d s).
Proof.
  intros ty d k s H. unfold sendWebSocketMessage.
  destruct (socketOpen s); calls_tac.
Qed.

Lemma calls_resumeListening :
  forall k s, calls k s -> calls k (resumeListening s).
Proof.
  intros k s H. unfold resumeListening. cbn.
  destruct (isVoiceModeActive s); calls_tac.
Qed.

Lemma calls_message :
  forall f s, calls 0 s -> calls 0 (handleWebSocketMessage f s).
Proof.
  intros [| ty d] s H; simpl; [calls_tac |].
  unfold dispatch. destruct (caseOf ty) as [[] |]; simpl.
  - destruct d; calls_tac.
  - unfold handleSessionEnded. apply calls_resetUIState. calls_tac.
  - destruct d; calls_tac.
  - unfold handlePartialTranscript. destruct d as [data |]; [| calls_tac].
    destruct (role data) as [r |]; [| calls_tac].
    destruct (String.eqb r "assistant" && _); calls_tac.
  - unfold handleUserTranscript. destruct d as [data |]; [| calls_tac].
    cbn. destruct (isVoiceModeActive s); calls_tac.
  - unfold handleAudioOutput. destruct d as [data |]; [| calls_tac].
    destruct (hasAudio data) as [c |]; [| calls_tac].
    cbn. destruct (isVoiceModeActive s) eqn:V; [| calls_tac].
    unfold playAudio.
    apply calls_awaitContext;
      [reflexivity | intros; now apply calls_playAudioDecoded |].
    destruct (isAgentSpeaking s); calls_tac.
  - destruct d; calls_tac.
  - destruct d; calls_tac.
  - destruct d; calls_tac.
  - destruct d; calls_tac.
  - unfold handleAgentSpeaking. cbn. destruct (isVoiceModeActive s); calls_tac.
  - unfold handleAgentDone. cbn.
    destruct (_ || isProcessingAudio s); cbn; [calls_tac |].
    destruct (isVoiceModeActive s) eqn:V; [| calls_tac].
    apply calls_resumeListening. calls_tac.
  - destruct d; calls_tac.
  - calls_tac.
Qed.

Lemma calls_sourceEnded :
  forall n s, calls 0 s -> calls 0 (sourceEnded n s).
Proof.
  intros n s H. unfold sourceEnded, isPlaying.
  destruct (existsb _ (rendering s)) eqn:E; [| exact H].
  apply calls_nextBuffer. unfold calls, liveCalls in *. cbn.
  destruct (rendering s) as [| b [| b' rest]] eqn:R; [discriminate | |].
  - simpl in E. rewrite orb_false_r in E. simpl. rewrite E. simpl.
    simpl in H. lia.
  - simpl in H. destruct (isProcessingAudio s); lia.
Qed.

Lemma calls_step :
  forall e s, e <> ClickInterrupt -> calls 0 s -> calls 0 (step e s).
Proof.
  intros e s N H. destruct e; simpl; try congruence.
  - unfold connectWebSocket. destruct (socketOpen s); calls_tac.
  - unfold clickEnd. apply calls_resetUIState.
    assert (calls 0 (sendWebSocketMessage "end_session" NoPayload s))
      by now apply calls_sendWebSocketMessage.
    calls_tac.
  - unfold socketOpened. destruct (websocket s) as [[] |]; calls_tac.
  - unfold socketClosed. apply calls_resetUIState.
    destruct (websocket s); calls_tac.
  - calls_tac.
  - now apply calls_message.
  - unfold clickVoiceToggle.
    destruct (isConnected s); cbn; [| exact H].
    destruct (isVoiceModeActive s); calls_tac.
  - unfold micGranted. destruct (micRequests s) as [| n]; [exact H |].
    apply calls_awaitContext; [reflexivity | intros; calls_tac | calls_tac].
  - unfold micDenied. destruct (micRequests s); calls_tac.
  - unfold onaudioprocess.
    destruct (audioProcessor s); [| exact H].
    destruct (negb (isVoiceModeActive s) || negb (isListening s)); [exact H |].
    now apply calls_sendWebSocketMessage.
  - now apply calls_sourceEnded.
  - unfold contextSuspended.
    destruct (audioContextInstance s) as [[|] |]; calls_tac.
  - unfold contextResumed.
    destruct (audioContextInstance s) as [[|] |]; try exact H.
    apply calls_resumeWaiters. calls_tac.
  - calls_tac.
Qed.

Lemma calls_run :
  forall es s, withoutInterrupt es -> calls 0 s -> calls 0 (run es s).
Proof.
  induction es as [| e es IH]; intros s W H; simpl; [exact H |].
  apply IH.
  - intros I. apply W. now right.
  - apply calls_step; [| exact H]. intros ->. apply W. now left.
Qed.

(** On a run without interrupt, whatever chunks and completions are
    interleaved, at most one source renders at a time. *)
Theorem one_source_without_interrupt :
  forall es : list Event,
    withoutInterrupt es ->
    List.length (rendering (run es initial)) <= 1.
Proof.
  intros es W.
  assert (H : calls 0 (run es initial))
    by (apply calls_run; [exact W | reflexivity]).
  unfold calls, liveCalls in H.
  destruct (isProcessingAudio (run es initial)); lia.
Qed.

Lemma one_source_without_interrupt_witness :
  let es := voiceOn ++ [audioOutput; audioOutput; agentDone; SourceEnded 0] in
  withoutInterrupt es /\ List.length (rendering (run es initial)) <= 1.
Proof.
  intros es.
  assert (W : withoutInterrupt es).
  { unfold withoutInterrupt, es. simpl. intuition discriminate. }
  split; [exact W |].
  exact (one_source_without_interrupt es W).
Defined.

(** ** What playback leaves alone *)

Ltac po_tac := unfold playbackOnly in *; cbn in *; intuition congruence.

Lemma playbackOnly_refl : forall s, playbackOnly s s.
Proof. intros. po_tac. Qed.

Lemma playbackOnly_trans :
  forall s t u, playbackOnly s t -> playbackOnly t u -> playbackOnly s u.
Proof. intros. po_tac. Qed.

Lemma po_resumeListening : forall s, playbackOnly s (resumeListening s).
Proof.
  intros s. unfold resumeListening. cbn. destruct (isVoiceModeActive s); po_tac.
Qed.

Lemma po_nextBuffer : forall s, playbackOnly s (nextBuffer s).
Proof.
  intros s. unfold nextBuffer. destruct (audioQueue s); [| po_tac].
  unfold queueDrained. cbn. destruct (pendingAgentDone s); cbn; [| po_tac].
  destruct (isVoiceModeActive s) eqn:V; [| po_tac].
  unfold resumeListening. cbn. rewrite V. po_tac.
Qed.

Lemma po_awaitContext :
  forall w k s,
    (forall t, playbackOnly t (k t)) -> playbackOnly s (awaitContext w k s).
Proof.
  intros w k s K. rewrite awaitContext_eq.
  destruct (audioContextInstance s) as [[|] |].
  - apply K.
  - po_tac.
  - eapply playbackOnly_trans; [| apply K]. po_tac.
Qed.

Lemma po_processAudioQueue : forall s, playbackOnly s (processAudioQueue s).
Proof.
  intros s. unfold processAudioQueue.
  destruct (isProcessingAudio s || _); [apply playbackOnly_refl |].
  eapply playbackOnly_trans;
    [| apply po_awaitContext; apply po_nextBuffer]. po_tac.
Qed.

Lemma po_playAudioDecoded : forall c s, playbackOnly s (playAudioDecoded c s).
Proof.
  intros c s. unfold playAudioDecoded. destruct (decodes c); [| po_tac].
  eapply playbackOnly_trans; [| apply po_processAudioQueue]. po_tac.
Qed.

Lemma po_playAudio : forall c s, playbackOnly s (playAudio c s).
Proof.
  intros c s. unfold playAudio. apply po_awaitContext.
  apply po_playAudioDecoded.
Qed.

Lemma po_sourceEnded : forall n s, playbackOnly s (sourceEnded n s).
Proof.
  intros n s. unfold sourceEnded. destruct (isPlaying n s); [| po_tac].
  eapply playbackOnly_trans; [| apply po_nextBuffer]. po_tac.
Qed.

(** The handlers of the turn messages only act on playback and the turn
    flags. *)
Lemma po_handleAudioOutput :
  forall d s,
    match handleAudioOutput d s with
    | Done t | Threw t => playbackOnly s t
    end.
Proof.
  intros d s. unfold handleAudioOutput. destruct d as [data |]; [| po_tac].
  destruct (hasAudio data) as [c |]; [| po_tac].
  cbn. destruct (isVoiceModeActive s); [| po_tac].
  eapply playbackOnly_trans; [| apply po_playAudio].
  destruct (isAgentSpeaking s); po_tac.
Qed.

Lemma po_handleAgentDone :
  forall s,
    match handleAgentDone s with
    | Done t | Threw t => playbackOnly s t
    end.
Proof.
  intros s. unfold handleAgentDone. cbn.
  destruct (_ || isProcessingAudio s); cbn; [po_tac |].
  destruct (isVoiceModeActive s) eqn:V; [| po_tac].
  eapply playbackOnly_trans; [| apply po_resumeListening]. po_tac.
Qed.

(** ** The rendering flag and the sources *)

(** On a run without interrupt during which the audio context is never
    suspended, the rendering flag is up exactly when a source renders, and
    there is then exactly one. *)
Theorem rendering_flag_matches_sources :
  forall es : list Event,
    withoutInterrupt es -> contextKeptRunning es ->
    List.length (rendering (run es initial)) =
    (if isProcessingAudio (run es initial) then 1 else 0).
Proof.
  intros es W K.
  assert (C : calls 0 (run es initial))
    by (apply calls_run; [exact W | reflexivity]).
  assert (S : steady (run es initial)).
  { apply steady_run; [exact K |]. unfold steady. simpl.
    repeat split; congruence. }
  destruct S as (_ & Ws & _).
  unfold calls, liveCalls in C. rewrite Ws in C. simpl in C. lia.
Qed.

Lemma rendering_flag_matches_sources_witness :
  let es := voiceOn ++ [audioOutput; audioOutput; SourceEnded 0] in
  withoutInterrupt es /\ contextKeptRunning es /\
  List.length (rendering (run es initial)) =
  (if isProcessingAudio (run es initial) then 1 else 0).
Proof.
  intros es.
  assert (W : withoutInterrupt es).
  { unfold withoutInterrupt, es. simpl. intuition discriminate. }
  assert (K : contextKeptRunning es).
  { unfold contextKeptRunning, es. simpl. intuition discriminate. }
  split; [exact W |]. split; [exact K |].
  exact (rendering_flag_matches_sources es W K).
Defined.

(** ** The wire *)

Lemma wire_resetUIState : forall s, wire (resetUIState s) = wire s.
Proof.
  intros s. unfold resetUIState.
  destruct (isRecording s || isVoiceModeActive s); reflexivity.
Qed.

Lemma wire_message : forall f s, wire (handleWebSocketMessage f s) = wire s.
Proof.
  intros [| ty d] s; simpl; [reflexivity |].
  unfold dispatch. destruct (caseOf ty) as [[] |]; simpl;
    try (destruct d; reflexivity); try reflexivity.
  - unfold handleSessionEnded. now rewrite wire_resetUIState.
  - unfold handlePartialTranscript. destruct d as [data |]; [| reflexivity].
    destruct (role data) as [r |]; [| reflexivity].
    destruct (String.eqb r "assistant" && _); reflexivity.
  - unfold handleUserTranscript. destruct d as [data |]; [| reflexivity].
    cbn. destruct (isVoiceModeActive s); reflexivity.
  - pose proof (po_handleAudioOutput d (log "Received message:" s)) as H.
    destruct (handleAudioOutput d _); cbn; apply H.
  - unfold handleAgentSpeaking. cbn. destruct (isVoiceModeActive s); reflexivity.
  - pose proof (po_handleAgentDone (log "Received message:" s)) as H.
    destruct (handleAgentDone _); cbn; apply H.
Qed.

Lemma wire_resumeWaiters :
  forall ws t,
    wire (fold_left (fun st w => resumeWaiter w st) ws t) = wire t.
Proof.
  induction ws as [| w ws IH]; intros t; simpl; [reflexivity |].
  rewrite IH. destruct w as [c | |]; simpl.
  - apply po_playAudioDecoded.
  - apply po_nextBuffer.
  - reflexivity.
Qed.

Lemma wire_sendWebSocketMessage :
  forall ty d s,
    wire (sendWebSocketMessage ty d s) =
    wire s ++ (if socketOpen s then [mkEnvelope ty d (now s)] else []).
Proof.
  intros ty d s. unfold sendWebSocketMessage.
  destruct (socketOpen s); cbn; now rewrite ?app_nil_r.
Qed.

(** The wire only grows, by at most one envelope per task of the event loop;
    the envelope carries the time of the task, and nothing is sent while the
    socket is not open. *)
Theorem wire_grows_by_at_most_one :
  forall (e : Event) (s : State),
    exists sent : list Envelope,
      wire (step e s) = wire s ++ sent /\
      List.length sent <= 1 /\
      (socketOpen s = false -> sent = []) /\
      Forall (fun m => e_timestamp m = now s) sent.
Proof.
  intros e s.
  assert (Z : forall t, wire t = wire s ->
                        exists sent, wire t = wire s ++ sent /\
                                     List.length sent <= 1 /\
                                     (socketOpen s = false -> sent = []) /\
                                     Forall (fun m => e_timestamp m = now s) sent).
  { intros t E. exists []. rewrite app_nil_r. repeat split; auto. }
  assert (O : forall t ty d,
             wire t = wire (sendWebSocketMessage ty d s) ->
             exists sent, wire t = wire s ++ sent /\
                          List.length sent <= 1 /\
                          (socketOpen s = false -> sent = []) /\
                          Forall (fun m => e_timestamp m = now s) sent).
  { intros t ty d E. rewrite wire_sendWebSocketMessage in E.
    exists (if socketOpen s then [mkEnvelope ty d (now s)] else []).
    split; [exact E |]. destruct (socketOpen s); simpl; repeat split; auto.
    discriminate. }
  destruct e; simpl.
  - apply Z. unfold connectWebSocket. destruct (socketOpen s); reflexivity.
  - apply (O _ "end_session" NoPayload). unfold clickEnd.
    now rewrite wire_resetUIState.
  - apply Z. unfold socketOpened. destruct (websocket s) as [[] |]; reflexivity.
  - apply Z. unfold socketClosed. rewrite wire_resetUIState.
    destruct (websocket s); reflexivity.
  - apply Z. reflexivity.
  - apply Z. apply wire_message.
  - apply Z. unfold clickVoiceToggle.
    destruct (isConnected s); cbn; [| reflexivity].
    destruct (isVoiceModeActive s); reflexivity.
  - apply Z. unfold micGranted. destruct (micRequests s) as [| n]; [reflexivity |].
    rewrite awaitContext_eq.
    destruct (audioContextInstance _) as [[|] |] eqn:C; reflexivity.
  - apply Z. unfold micDenied. destruct (micRequests s); reflexivity.
  - unfold onaudioprocess.
    destruct (audioProcessor s); [| now apply Z].
    destruct (negb (isVoiceModeActive s) || negb (isListening s)); [now apply Z |].
    now apply (O _ "audio_input" (AudioPayload base64Audio)).
  - unfold clickInterrupt.
    destruct (negb (isVoiceModeActive s) || negb (isAgentSpeaking s)); [now apply Z |].
    apply (O _ "interrupt" NoPayload).
    unfold resumeListening, clearAudioQueue. cbn.
    destruct (isVoiceModeActive _); cbn;
      unfold sendWebSocketMessage; cbn;
      destruct (socketOpen (log _ s)) eqn:E; rewrite socketOpen_log in E;
      rewrite E; reflexivity.
  - apply Z. apply po_sourceEnded.
  - apply Z. unfold contextSuspended.
    destruct (audioContextInstance s) as [[|] |]; reflexivity.
  - apply Z. unfold contextResumed.
    destruct (audioContextInstance s) as [[|] |]; try reflexivity.
    now rewrite wire_resumeWaiters.
  - apply Z. reflexivity.
Qed.

(** ** Pausing and ending capture *)





(** Voice mode starts only where [startVoiceMode] ends: at the grant of a
    pending microphone request, or when the audio context runs again with a
    [startVoiceMode] call waiting for it. *)
Theorem voice_mode_needs_granted_microphone :
  forall (e : Event) (s : State),
    isVoiceModeActive s = false ->
    isVoiceModeActive (step e s) = true ->
    (e = MicGranted /\ 0 < micRequests s) \/
    (e = ContextResumed /\ In WVoice (waiters s)).
Proof.
  intros e s V H. destruct e; simpl in H.
  - unfold connectWebSocket in H. destruct (socketOpen s); cbn in H; congruence.
  - unfold clickEnd, resetUIState in H.
    destruct (isRecording _ || isVoiceModeActive _) eqn:G; cbn in H;
      [discriminate |].
    unfold sendWebSocketMessage in H. destruct (socketOpen s); cbn in H;
      congruence.
  - unfold socketOpened in H. destruct (websocket s) as [[] |]; cbn in H;
      congruence.
  - unfold socketClosed, resetUIState in H.
    destruct (isRecording _ || isVoiceModeActive _); cbn in H;
      [discriminate |].
    destruct (websocket s); cbn in H; congruence.
  - cbn in H. congruence.
  - exfalso. destruct f as [| ty d]; simpl in H; [cbn in H; congruence |].
    unfold dispatch in H. destruct (caseOf ty) as [[] |]; simpl in H;
      try (destruct d; cbn in H; congruence); try (cbn in H; congruence).
    + unfold handleSessionEnded, resetUIState in H.
      destruct (isRecording _ || isVoiceModeActive _); cbn in H; congruence.
    + unfold handlePartialTranscript in H. destruct d as [data |];
        [| cbn in H; congruence].
      destruct (role data) as [r |]; [| cbn in H; congruence].
      cbn in H. rewrite V, andb_false_r in H. cbn in H. congruence.
    + unfold handleUserTranscript in H. destruct d as [data |];
        [| cbn in H; congruence].
      cbn in H. rewrite V in H. cbn in H. congruence.
    + pose proof (po_handleAudioOutput d (log "Received message:" s)) as P.
      destruct (handleAudioOutput d _); destruct P as [P _]; cbn in *;
        congruence.
    + unfold handleAgentSpeaking in H. cbn in H. rewrite V in H. cbn in H.
      congruence.
    + pose proof (po_handleAgentDone (log "Received message:" s)) as P.
      destruct (handleAgentDone _); destruct P as [P _]; cbn in *;
        congruence.
  - unfold clickVoiceToggle in H. destruct (isConnected s); cbn in H;
      [| congruence].
    rewrite V in H. cbn in H. congruence.
  - left. split; [reflexivity |]. unfold micGranted in H.
    destruct (micRequests s); [congruence | lia].
  - unfold micDenied in H. destruct (micRequests s); cbn in H; congruence.
  - unfold onaudioprocess in H. rewrite V in H. cbn in H.
    destruct (audioProcessor s); congruence.
  - unfold clickInterrupt in H. rewrite V in H. cbn in H. congruence.
  - destruct (po_sourceEnded n s) as [P _]. congruence.
  - unfold contextSuspended in H.
    destruct (audioContextInstance s) as [[|] |]; cbn in H; congruence.
  - right. split; [reflexivity |]. unfold contextResumed in H.
    destruct (audioContextInstance s) as [[|] |]; try congruence.
    assert (W : forall ws t,
               isVoiceModeActive t = false ->
               isVoiceModeActive
                 (fold_left (fun st w => resumeWaiter w st) ws t) = true ->
               In WVoice ws).
    { induction ws as [| w ws IH]; intros t Vt Ht; simpl in *; [congruence |].
      destruct w as [c | |].
      - right. apply (IH (playAudioDecoded c t)); [| exact Ht].
        destruct (po_playAudioDecoded c t) as [P _]. simpl. congruence.
      - right. apply (IH (nextBuffer t)); [| exact Ht].
        destruct (po_nextBuffer t) as [P _]. simpl. congruence.
      - now left. }
    apply (W (waiters s)
             (set_waiters [] (set_audioContextInstance (Some Running) s)));
      [exact V | exact H].
  - cbn in H. congruence.
Qed.

Lemma voice_mode_needs_granted_microphone_witness :
  let s := run [ClickStart; SocketOpened; ClickVoiceToggle] initial in
  isVoiceModeActive s = false /\
  isVoiceModeActive (step MicGranted s) = true /\
  0 < micRequests s.
Proof.
  intros s.
  assert (V : isVoiceModeActive s = false) by reflexivity.
  assert (H : isVoiceModeActive (step MicGranted s) = true) by reflexivity.
  split; [exact V |]. split; [exact H |].
  destruct (voice_mode_needs_granted_microphone MicGranted s V H) as [[_ M] | [E _]];
    [exact M | discriminate E].
Defined.

(** When the conversation ends or the connection is lost (the socket closes,
    the end button is clicked, the remote sends [session_ended]), voice mode
    and the listening flag are down afterwards and a later capture callback
    changes nothing; the playback queue is left as it was. *)
Theorem closing_stops_capture :
  forall (e : Event) (s : State),
    reachable s -> closing e ->
    let s' := step e s in
    isVoiceModeActive s' = false /\ isListening s' = false /\
    audioQueue s' = audioQueue s /\ rendering s' = rendering s /\
    forall a, step (AudioProcess a) s' = s'.
Proof.
  intros e s R C.
  pose proof (reachable_listens s R) as L.
  assert (Z : forall t,
             (isListening t = true -> isVoiceModeActive t = true) ->
             audioQueue t = audioQueue s -> rendering t = rendering s ->
             isVoiceModeActive (resetUIState t) = false /\
             isListening (resetUIState t) = false /\
             audioQueue (resetUIState t) = audioQueue s /\
             rendering (resetUIState t) = rendering s /\
             forall a, step (AudioProcess a) (resetUIState t) = resetUIState t).
  { intros t Lt Q Rn. unfold resetUIState.
    destruct (isRecording t) eqn:Rec; cbn.
    - repeat split; trivial.
    - destruct (isVoiceModeActive t) eqn:V; cbn.
      + repeat split; trivial.
      + rewrite V. destruct (isListening t) eqn:Li.
        * specialize (Lt eq_refl). discriminate.
        * repeat split; trivial. intros a. unfold onaudioprocess.
          rewrite V. cbn. now destruct (audioProcessor t). }
  cbv zeta. destruct C as [-> | [-> | [d ->]]]; simpl.
  - unfold socketClosed. apply Z; [| destruct (websocket s); reflexivity ..].
    destruct (websocket s); exact L.
  - unfold clickEnd. apply Z.
    + unfold sendWebSocketMessage. destruct (socketOpen s); exact L.
    + unfold sendWebSocketMessage. destruct (socketOpen s); reflexivity.
    + unfold sendWebSocketMessage. destruct (socketOpen s); reflexivity.
  - unfold dispatch.
    change (caseOf (Some "session_ended")) with (Some t_session_ended).
    cbv iota. unfold handleSessionEnded. apply Z; [exact L | reflexivity ..].
Qed.

Lemma closing_stops_capture_witness :
  let s := run (voiceOn ++ [audioOutput; audioOutput]) initial in
  let s' := step SocketClosed s in
  reachable s /\ closing SocketClosed /\
  isVoiceModeActive s' = false /\ isListening s' = false /\
  audioQueue s' = audioQueue s /\ rendering s' = rendering s.
Proof.
  intros s s'.
  assert (R : reachable s) by (apply reachable_run; constructor).
  assert (C : closing SocketClosed) by (left; reflexivity).
  destruct (closing_stops_capture SocketClosed s R C) as (A & B & Q & Rn & _).
  split; [exact R |]. split; [exact C |]. split; [exact A |].
  split; [exact B |]. split; [exact Q | exact Rn].
Defined.

(** ** Playing the queue out *)

(** With one source rendering, the completions of that source and of the
    queued buffers start each queued buffer in turn, exactly one source
    rendering at any time, and leave the scheduler idle with every queued
    buffer started, in queue order. *)
Theorem queue_plays_out :
  forall (b : Buffer) (t : State),
    rendering t = [b] ->
    (forall k, k < List.length (b :: audioQueue t) ->
       rendering (run (firstn k (completions (b :: audioQueue t))) t) =
       [nth k (b :: audioQueue t) b]) /\
    (let u := run (completions (b :: audioQueue t)) t in
     started u = started t ++ audioQueue t /\
     rendering u = [] /\ audioQueue u = [] /\ isProcessingAudio u = false).
Proof.
  intros b t. remember (audioQueue t) as q eqn:Q. revert b t Q.
  induction q as [| b' q IH]; intros b t Q R.
  - split.
    + intros k Hk. simpl in Hk. assert (k = 0) by lia. subst k. exact R.
    + simpl. rewrite (sourceEnded_single b t R).
      unfold nextBuffer. cbn. rewrite <- Q. unfold queueDrained. cbn.
      destruct (pendingAgentDone t); cbn.
      * destruct (isVoiceModeActive t) eqn:V; cbn.
        -- unfold resumeListening. cbn. rewrite V. cbn.
           now rewrite app_nil_r.
        -- now rewrite app_nil_r.
      * now rewrite app_nil_r.
  - assert (E : step (SourceEnded (arrival b)) t =
                set_started (started t ++ [b'])
                  (set_rendering [b'] (set_audioQueue q (set_rendering [] t)))).
    { simpl. rewrite (sourceEnded_single b t R).
      unfold nextBuffer. cbn. now rewrite <- Q. }
    destruct (IH b' (step (SourceEnded (arrival b)) t)) as [I1 I2];
      try (rewrite E; reflexivity).
    split.
    + intros [| k] Hk; [exact R |].
      change (firstn (S k) (completions (b :: b' :: q)))
        with (SourceEnded (arrival b) :: firstn k (completions (b' :: q))).
      rewrite run_cons. rewrite I1 by (simpl in *; lia).
      simpl. f_equal. destruct k; [reflexivity |]. apply nth_indep.
      simpl in Hk. lia.
    + change (completions (b :: b' :: q))
        with (SourceEnded (arrival b) :: completions (b' :: q)).
      rewrite run_cons. cbv zeta in *.
      destruct I2 as (A1 & A2 & A3 & A4).
      repeat split; trivial.
      rewrite A1, E. cbn. now rewrite <- app_assoc.
Qed.

Lemma queue_plays_out_witness :
  let t := run (voiceOn ++ [audioOutput; audioOutput; audioOutput]) initial in
  let u := run [SourceEnded 0; SourceEnded 1; SourceEnded 2] t in
  rendering t = [mkBuffer 0 "UklGRg=="] /\
  started u = started t ++ audioQueue t /\
  rendering u = [] /\ audioQueue u = [] /\ isProcessingAudio u = false.
Proof.
  intros t u.
  assert (R : rendering t = [mkBuffer 0 "UklGRg=="]) by reflexivity.
  destruct (queue_plays_out (mkBuffer 0 "UklGRg==") t R) as [_ H].
  split; [exact R | exact H].
Defined.

(** ** Dropped buffers stay dropped *)

Ltac since_tac := unfold since in *; cbn in *; intuition.

Lemma since_nextBuffer :
  forall n base s, since n base s -> since n base (nextBuffer s).
Proof.
  intros n base s H. unfold nextBuffer.
  destruct (audioQueue s) as [| b rest] eqn:Q.
  - unfold queueDrained. cbn. destruct (pendingAgentDone s); cbn.
    + destruct (isVoiceModeActive s) eqn:V; cbn.
      * unfold resumeListening. cbn. rewrite V. unfold since in *. cbn.
        now rewrite Q.
      * unfold since in *. cbn. now rewrite Q.
    + unfold since in *. cbn. now rewrite Q.
  - unfold since in *. cbn. rewrite Q in H. destruct H as (A & B & C).
    inversion B; subst. repeat split; trivial.
    intros x Hx. apply in_app_or in Hx. destruct Hx as [Hx | [<- | []]]; auto.
Qed.

Lemma since_awaitContext :
  forall w k n base s,
    (forall t, since n base t -> since n base (k t)) ->
    since n base s -> since n base (awaitContext w k s).
Proof.
  intros w k n base s K H. rewrite awaitContext_eq.
  destruct (audioContextInstance s) as [[|] |].
  - now apply K.
  - exact H.
  - apply K. exact H.
Qed.

Lemma since_processAudioQueue :
  forall n base s, since n base s -> since n base (processAudioQueue s).
Proof.
  intros n base s H. unfold processAudioQueue.
  destruct (isProcessingAudio s || _); [exact H |].
  apply since_awaitContext; [intros; now apply since_nextBuffer | exact H].
Qed.

Lemma since_playAudioDecoded :
  forall c n base s, since n base s -> since n base (playAudioDecoded c s).
Proof.
  intros c n base s H. unfold playAudioDecoded. destruct (decodes c); [| exact H].
  apply since_processAudioQueue. unfold since in *. cbn.
  destruct H as (A & B & C). repeat split; [lia | | exact C].
  apply Forall_app. split; [exact B |]. now repeat constructor.
Qed.

Lemma since_resetUIState :
  forall n base s, since n base s -> since n base (resetUIState s).
Proof.
  intros n base s H. unfold resetUIState.
  destruct (isRecording s || isVoiceModeActive s); exact H.
Qed.

Lemma since_resumeListening :
  forall n base s, since n base s -> since n base (resumeListening s).
Proof.
  intros n base s H. unfold resumeListening. cbn.
  destruct (isVoiceModeActive s); exact H.
Qed.

Lemma since_sendWebSocketMessage :
  forall ty d n base s,
    since n base s -> since n base (sendWebSocketMessage ty d s).
Proof.
  intros ty d n base s H. unfold sendWebSocketMessage.
  destruct (socketOpen s); exact H.
Qed.

Lemma since_message :
  forall f n base s,
    since n base s -> since n base (handleWebSocketMessage f s).
Proof.
  intros [| ty d] n base s H; simpl; [exact H |].
  unfold dispatch. destruct (caseOf ty) as [[] |]; simpl;
    try (destruct d; exact H); try exact H.
  - unfold handleSessionEnded. now apply since_resetUIState.
  - unfold handlePartialTranscript. destruct d as [data |]; [| exact H].
    destruct (role data) as [r |]; [| exact H].
    destruct (String.eqb r "assistant" && _); exact H.
  - unfold handleUserTranscript. destruct d as [data |]; [| exact H].
    cbn. destruct (isVoiceModeActive s); exact H.
  - unfold handleAudioOutput. destruct d as [data |]; [| exact H].
    destruct (hasAudio data) as [c |]; [| exact H].
    cbn. destruct (isVoiceModeActive s) eqn:V; [| exact H].
    unfold playAudio.
    apply since_awaitContext; [intros; now apply since_playAudioDecoded |].
    destruct (isAgentSpeaking s); exact H.
  - unfold handleAgentSpeaking. cbn. destruct (isVoiceModeActive s); exact H.
  - unfold handleAgentDone. cbn.
    destruct (_ || isProcessingAudio s); cbn; [exact H |].
    destruct (isVoiceModeActive s) eqn:V; [| exact H].
    now apply since_resumeListening.
Qed.

Lemma since_step :
  forall e n base s, since n base s -> since n base (step e s).
Proof.
  intros e n base s H. destruct e; simpl.
  - unfold connectWebSocket. destruct (socketOpen s); exact H.
  - unfold clickEnd. apply since_resetUIState.
    now apply (since_sendWebSocketMessage "end_session" NoPayload) in H.
  - unfold socketOpened. destruct (websocket s) as [[] |]; exact H.
  - unfold socketClosed. apply since_resetUIState.
    destruct (websocket s); exact H.
  - exact H.
  - now apply since_message.
  - unfold clickVoiceToggle.
    destruct (isConnected s); cbn; [| exact H].
    destruct (isVoiceModeActive s); exact H.
  - unfold micGranted. destruct (micRequests s) as [| m]; [exact H |].
    apply since_awaitContext; [intros t Ht; exact Ht | exact H].
  - unfold micDenied. destruct (micRequests s); exact H.
  - unfold onaudioprocess.
    destruct (audioProcessor s); [| exact H].
    destruct (negb (isVoiceModeActive s) || negb (isListening s)); [exact H |].
    now apply since_sendWebSocketMessage.
  - unfold clickInterrupt.
    destruct (negb (isVoiceModeActive s) || negb (isAgentSpeaking s)); [exact H |].
    apply since_resumeListening.
    assert (F : since n base
                  (sendWebSocketMessage "interrupt" NoPayload
                     (log "[INTERRUPT] User interrupted agent" s)))
      by (apply since_sendWebSocketMessage; exact H).
    unfold clearAudioQueue, since in *. cbn. intuition.
  - unfold sourceEnded. destruct (isPlaying _ s); [| exact H].
    apply since_nextBuffer. exact H.
  - unfold contextSuspended.
    destruct (audioContextInstance s) as [[|] |]; exact H.
  - unfold contextResumed.
    destruct (audioContextInstance s) as [[|] |]; try exact H.
    assert (W : forall ws t,
               since n base t ->
               since n base (fold_left (fun st w => resumeWaiter w st) ws t)).
    { induction ws as [| w ws IH]; intros t Ht; simpl; [exact Ht |].
      apply IH. destruct w as [c | |]; simpl.
      - now apply since_playAudioDecoded.
      - now apply since_nextBuffer.
      - exact Ht. }
    apply W. exact H.
  - exact H.
Qed.

Lemma since_run :
  forall es n base s, since n base s -> since n base (run es s).
Proof.
  induction es as [| e es IH]; intros n base s H; simpl; [exact H |].
  apply IH. now apply since_step.
Qed.

Lemma ascending_app_r :
  forall l1 l2 n, ascending n (l1 ++ l2) -> ascending n l2.
Proof.
  induction l1 as [| x rest IH]; simpl; intros l2 n H; [exact H |].
  apply IH. apply H.
Qed.

Lemma ascending_split :
  forall l1 l2 n x y,
    ascending n (l1 ++ l2) -> In x l1 -> In y l2 -> x < y.
Proof.
  induction l1 as [| a rest IH]; simpl; intros l2 n x y H Hx Hy; [easy |].
  destruct H as (_ & F & A). destruct Hx as [<- | Hx].
  - rewrite Forall_forall in F. apply F. apply in_or_app. now right.
  - eapply IH; eauto.
Qed.

(** A buffer that waits in the queue when [clearAudioQueue] is called is
    never started afterwards, whatever happens next. *)
Theorem cleared_buffers_never_start :
  forall (s : State) (b : Buffer) (es : list Event),
    reachable s ->
    In b (audioQueue s) ->
    ~ In b (started (run es (clearAudioQueue s))).
Proof.
  intros s b es R Q.
  pose proof (sources_start_in_arrival_order_aux s R) as F.
  unfold fifo in F. rewrite map_app in F.
  assert (B : arrival b < arrivals s).
  { apply ascending_app_r in F. apply ascending_below in F.
    rewrite Forall_forall in F. apply F. now apply in_map. }
  assert (S0 : since (arrivals s) (started s) (clearAudioQueue s)).
  { unfold since, clearAudioQueue. cbn. repeat split; auto. }
  apply (since_run es) in S0. destruct S0 as (_ & _ & S0).
  intros I. destruct (S0 b I) as [J | J]; [| lia].
  assert (arrival b < arrival b); [| lia].
  eapply ascending_split; [exact F | now apply in_map | now apply in_map].
Qed.

Lemma cleared_buffers_never_start_witness :
  let s := run (voiceOn ++ [audioOutput; audioOutput]) initial in
  let es := [audioOutput; SourceEnded 0; SourceEnded 2] in
  reachable s /\ In (mkBuffer 1 "UklGRg==") (audioQueue s) /\
  ~ In (mkBuffer 1 "UklGRg==") (started (run es (clearAudioQueue s))).
Proof.
  intros s es.
  assert (R : reachable s) by (apply reachable_run; constructor).
  assert (Q : In (mkBuffer 1 "UklGRg==") (audioQueue s))
    by (vm_compute; left; reflexivity).
  split; [exact R |]. split; [exact Q |].
  exact (cleared_buffers_never_start s (mkBuffer 1 "UklGRg==") es R Q).
Defined.

(** ** The side panels *)

Lemma addProduct_customerInfo :
  forall x p,
    customerInfo (addProduct x p) = customerInfo p /\
    currentAgent (addProduct x p) = currentAgent p.
Proof.
  intros x p. unfold addProduct.
  destruct (existsb _ (productsDiscussed p)); now split.
Qed.

Lemma addProduct_spec :
  forall x p,
    NoDup (productsDiscussed p) ->
    NoDup (productsDiscussed (addProduct x p)) /\
    (forall y, In y (productsDiscussed (addProduct x p)) <->
               In y (productsDiscussed p) \/ y = x) /\
    exists added, productsDiscussed (addProduct x p) =
                  productsDiscussed p ++ added.
Proof.
  intros x p N. unfold addProduct.
  destruct (existsb (String.eqb x) (productsDiscussed p)) eqn:E.
  - apply existsb_exists in E. destruct E as (z & Hz & Ez).
    apply String.eqb_eq in Ez. subst z.
    split; [exact N |]. split.
    + intros y. split; [auto |]. intros [H | ->]; assumption.
    + exists []. now rewrite app_nil_r.
  - assert (X : ~ In x (productsDiscussed p)).
    { intros I. assert (existsb (String.eqb x) (productsDiscussed p) = true).
      { apply existsb_exists. exists x. split; [exact I | apply String.eqb_refl]. }
      congruence. }
    cbn. split.
    + apply NoDup_app; [exact N | repeat constructor; easy |].
      intros a Ha [<- | []]. contradiction.
    + split.
      * intros y. rewrite in_app_iff. simpl. intuition.
      * now exists [x].
Qed.

Lemma addProducts_spec :
  forall products p,
    NoDup (productsDiscussed p) ->
    let q := fold_left (fun q product => addProduct product q) products p in
    NoDup (productsDiscussed q) /\
    (forall y, In y (productsDiscussed q) <->
               In y (productsDiscussed p) \/ In y products) /\
    (exists added, productsDiscussed q = productsDiscussed p ++ added) /\
    customerInfo q = customerInfo p /\ currentAgent q = currentAgent p.
Proof.
  induction products as [| x rest IH]; intros p N; simpl.
  - repeat split; trivial.
    + auto.
    + intros [H | []]. exact H.
    + exists []. now rewrite app_nil_r.
  - destruct (addProduct_spec x p N) as (N1 & M1 & (a1 & E1)).
    destruct (addProduct_customerInfo x p) as [C1 A1].
    destruct (IH (addProduct x p) N1) as (N2 & M2 & (a2 & E2) & C2 & A2).
    cbv zeta in *. repeat split; trivial.
    + intros H. apply M2 in H. rewrite M1 in H. intuition.
    + intros H. apply M2. rewrite M1. intuition.
    + exists (a1 ++ a2). now rewrite E2, E1, app_assoc.
    + congruence.
    + congruence.
Qed.

(** The list of discussed products never holds a name twice: a context
    update adds the names it brings that are not yet listed, keeps the names
    already listed in their order, and adds nothing else. *)
Theorem products_stay_distinct :
  forall (data : ContextData) (p : Panel) (products : list string),
    products_discussed data = Some products ->
    NoDup (productsDiscussed p) ->
    let q := handleContextUpdate data p in
    NoDup (productsDiscussed q) /\
    (forall y, In y (productsDiscussed q) <->
               In y (productsDiscussed p) \/ In y products) /\
    exists added, productsDiscussed q = productsDiscussed p ++ added.
Proof.
  intros data p products D N. unfold handleContextUpdate. rewrite D.
  match goal with
  | |- context [fold_left _ products ?p2] =>
      assert (E : productsDiscussed p2 = productsDiscussed p)
  end.
  { destruct (current_agent data) as [agent |]; [| reflexivity].
    destruct (String.eqb agent ""); reflexivity. }
  match goal with
  | |- context [fold_left _ products ?p2] =>
      destruct (addProducts_spec products p2) as (A & B & C & _)
  end.
  { now rewrite E. }
  cbv zeta in *. rewrite E in B, C. repeat split; trivial; apply B.
Qed.

Lemma products_stay_distinct_witness :
  let data :=
    mkContextData None None None None (Some ["Desk"; "Lamp"; "Desk"]) in
  let p := mkPanel (mkInfo Absent Absent Absent) "GreetingAgent" ["Lamp"] in
  let q := handleContextUpdate data p in
  NoDup (productsDiscussed p) /\
  NoDup (productsDiscussed q) /\
  (forall y, In y (productsDiscussed q) <->
             In y (productsDiscussed p) \/ In y ["Desk"; "Lamp"; "Desk"]) /\
  exists added, productsDiscussed q = productsDiscussed p ++ added.
Proof.
  intros data p q.
  assert (N : NoDup (productsDiscussed p)).
  { repeat constructor. intros []. }
  split; [exact N |].
  exact (products_stay_distinct data p ["Desk"; "Lamp"; "Desk"] eq_refl N).
Defined.


(** ** Tool names *)

Lemma toUpperCase_facts :
  forall c,
    isWordChar (toUpperCase c) = isWordChar c /\
    toUpperCase (toUpperCase c) = toUpperCase c /\
    (isWordChar c = true -> c <> "_"%char -> toUpperCase c <> "_"%char).
Proof.
  intros [[] [] [] [] [] [] [] []]; vm_compute; repeat split;
    intros; congruence.
Qed.

Lemma capitalizeWords_length :
  forall s w, String.length (capitalizeWords w s) = String.length s.
Proof. induction s as [| c s IH]; intros w; simpl; [| rewrite IH]; reflexivity. Qed.

Lemma replaceUnderscores_length :
  forall s, String.length (replaceUnderscores s) = String.length s.
Proof. induction s as [| c s IH]; simpl; [| rewrite IH]; reflexivity. Qed.

Lemma capitalizeWords_idempotent :
  forall s w, capitalizeWords w (capitalizeWords w s) = capitalizeWords w s.
Proof.
  induction s as [| c s IH]; intros w; simpl; [reflexivity |].
  destruct (toUpperCase_facts c) as (W & U & _).
  destruct (isWordChar c) eqn:Wc, w; simpl;
    rewrite ?W, ?Wc, ?U, ?IH; simpl; rewrite ?IH; reflexivity.
Qed.

Lemma no_underscore_after :
  forall s w,
    replaceUnderscores (capitalizeWords w (replaceUnderscores s)) =
    capitalizeWords w (replaceUnderscores s).
Proof.
  induction s as [| c s IH]; intros w; simpl; [reflexivity |].
  rewrite IH. f_equal.
  destruct (Ascii.eqb c "_") eqn:E.
  - destruct w; reflexivity.
  - apply Ascii.eqb_neq in E.
    destruct (isWordChar c && negb w) eqn:G.
    + apply andb_true_iff in G. destruct G as [G _].
      destruct (toUpperCase_facts c) as (_ & _ & N).
      specialize (N G E). apply Ascii.eqb_neq in N. now rewrite N.
    + apply Ascii.eqb_neq in E. now rewrite E.
Qed.

(** [formatToolName] keeps the length of the name, leaves no underscore in
    it, and gives back its own results unchanged. *)
Theorem formatToolName_shape :
  forall toolName : string,
    String.length (formatToolName toolName) = String.length toolName /\
    ~ In "_"%char (list_ascii_of_string (formatToolName toolName)) /\
    formatToolName (formatToolName toolName) = formatToolName toolName.
Proof.
  intros toolName. unfold formatToolName. split; [| split].
  - now rewrite capitalizeWords_length, replaceUnderscores_length.
  - pose proof (no_underscore_after toolName false) as H.
    revert H. generalize (capitalizeWords false (replaceUnderscores toolName)).
    induction s as [| c s IH]; simpl; intros H I; [exact I |].
    destruct I as [E | I].
    + subst c. simpl in H. discriminate.
    + injection H as _ H. now apply IH.
  - rewrite no_underscore_after. apply capitalizeWords_idempotent.
Qed.

(** ** Transliteration *)

Lemma textEqb_eq : forall a b, textEqb a b = true -> a = b.
Proof.
  induction a as [| x a IH]; intros [| y b] H; simpl in H;
    try discriminate; [reflexivity |].
  apply andb_true_iff in H. destruct H as [H1 H2].
  apply Nat.eqb_eq in H1. f_equal; auto.
Qed.

(** Every key of the table lies outside ASCII and every replacement inside. *)
Lemma hindiToEnglish_shape :
  forall key replacement,
    lookupHindi key = Some replacement ->
    Forall (fun c => 127 < c) key /\ key <> [] /\
    Forall (fun c => c <= 127) (codes replacement).
Proof.
  intros key replacement H. unfold lookupHindi in H.
  destruct (find _ hindiToEnglish) as [[k v] |] eqn:F; [| discriminate].
  injection H as <-. apply find_some in F. destruct F as [I E].
  simpl in E. apply textEqb_eq in E. subst k.
  assert (A : forallb
                (fun e => forallb (fun c => 127 <? c) (fst e) &&
                          negb (List.length (fst e) =? 0) &&
                          forallb (fun c => c <=? 127) (codes (snd e)))
                hindiToEnglish = true) by (vm_compute; reflexivity).
  rewrite forallb_forall in A. specialize (A _ I). simpl in A.
  apply andb_true_iff in A. destruct A as [A A3].
  apply andb_true_iff in A. destruct A as [A1 A2].
  repeat split.
  - apply Forall_forall. rewrite forallb_forall in A1.
    intros c Hc. now apply Nat.ltb_lt, A1.
  - intros ->. discriminate.
  - apply Forall_forall. rewrite forallb_forall in A3.
    intros c Hc. now apply Nat.leb_le, A3.
Qed.

Lemma transliterateChar_ascii :
  forall c, c <= 127 -> transliterateChar c = [c].
Proof.
  intros c H. unfold transliterateChar.
  destruct (lookupHindi [c]) as [v |] eqn:L; [| reflexivity].
  apply hindiToEnglish_shape in L. destruct L as (K & _).
  inversion K; subst. lia.
Qed.

Lemma transliterate_ascii :
  forall text,
    Forall (fun c => c <= 127) text -> transliterateToEnglish text = text.
Proof.
  induction 1 as [| c text H _ IH]; simpl; [reflexivity |].
  now rewrite transliterateChar_ascii, IH.
Qed.

Lemma transliterateChar_twice :
  forall c,
    transliterateToEnglish (transliterateChar c) = transliterateChar c /\
    1 <= List.length (transliterateChar c).
Proof.
  intros c.
  assert (K : transliterateChar c = [c] ->
              transliterateToEnglish (transliterateChar c) = transliterateChar c /\
              1 <= List.length (transliterateChar c)).
  { intros T. split; [| rewrite T; simpl; lia].
    rewrite T at 1. simpl. apply app_nil_r. }
  destruct (lookupHindi [c]) as [v |] eqn:L.
  - destruct (String.eqb v "") eqn:E.
    + apply K. unfold transliterateChar. now rewrite L, E.
    + assert (T : transliterateChar c = codes v)
        by (unfold transliterateChar; now rewrite L, E).
      rewrite T. apply hindiToEnglish_shape in L. destruct L as (_ & _ & A).
      split; [now apply transliterate_ascii |].
      destruct v; [discriminate | simpl; lia].
  - apply K. unfold transliterateChar. now rewrite L.
Qed.

Lemma transliterate_app :
  forall a b,
    transliterateToEnglish (a ++ b) =
    transliterateToEnglish a ++ transliterateToEnglish b.
Proof. intros. unfold transliterateToEnglish. apply flat_map_app. Qed.

Lemma transliterate_twice :
  forall text,
    transliterateToEnglish (transliterateToEnglish text) =
    transliterateToEnglish text.
Proof.
  induction text as [| c text IH]; simpl; [reflexivity |].
  rewrite transliterate_app, IH.
  now destruct (transliterateChar_twice c) as [-> _].
Qed.

(** Transliteration leaves text made of ASCII characters as it is, and never
    makes a text shorter: every character is kept or replaced by at least
    one character. *)
Theorem transliteration_keeps_ascii :
  forall text : Text,
    List.length text <= List.length (transliterateToEnglish text) /\
    (containsNonEnglish text = false ->
     transliterateToEnglish text = text /\ processTextForDisplay text = text).
Proof.
  intros text. split.
  - induction text as [| c text IH]; simpl; [lia |].
    rewrite length_app.
    destruct (transliterateChar_twice c) as [_ L]. lia.
  - intros H. split.
    + apply transliterate_ascii. apply Forall_forall. intros c Hc.
      unfold containsNonEnglish in H.
      destruct (127 <? c) eqn:E; [| now apply Nat.ltb_ge].
      assert (existsb (fun c => 127 <? c) text = true)
        by (apply existsb_exists; eauto).
      congruence.
    + unfold processTextForDisplay. now rewrite H.
Qed.

(** [processTextForDisplay] applied to its own result changes nothing, so
    text that is prepared for display twice (as [handleUserTranscript] does
    through [addMessage]) is shown as after one pass. *)
Theorem processTextForDisplay_idempotent :
  forall text : Text,
    processTextForDisplay (processTextForDisplay text) =
    processTextForDisplay text.
Proof.
  intros text. unfold processTextForDisplay.
  destruct (containsNonEnglish text) eqn:E.
  - destruct (containsNonEnglish (transliterateToEnglish text));
      [apply transliterate_twice | reflexivity].
  - now rewrite E.
Qed.

Lemma transliteration_keeps_ascii_witness :
  let text := codes "Hello, 2 desks" in
  containsNonEnglish text = false /\
  List.length text <= List.length (transliterateToEnglish text) /\
  transliterateToEnglish text = text /\ processTextForDisplay text = text.
Proof.
  intros text.
  assert (A : containsNonEnglish text = false) by (vm_compute; reflexivity).
  destruct (transliteration_keeps_ascii text) as [L H].
  split; [exact A |]. split; [exact L | exact (H A)].
Defined.

Lemma wire_grows_by_at_most_one_witness :
  let s := run [ClickStart] initial in
  socketOpen s = false /\
  exists sent : list Envelope,
    wire (step ClickEnd s) = wire s ++ sent /\ sent = [].
Proof.
  intros s.
  assert (C : socketOpen s = false) by (vm_compute; reflexivity).
  split; [exact C |].
  destruct (wire_grows_by_at_most_one ClickEnd s) as (sent & E & _ & Z & _).
  exists sent. split; [exact E | exact (Z C)].
Defined.

(** ** Handover while a buffer renders *)

(** C3 fails on the code.  After an interrupt the source that was playing is
    still playing with the rendering flag down.  An [agent_done] handled then
    resumes listening at once although buffer 0 renders.  And when a new
    chunk and then [agent_done] arrive, the pending flag is raised, but the
    handover comes at the end of the old source, while buffer 1 still
    renders, not at the end of playback. *)
Lemma agent_done_resumes_while_rendering :
  let s := run (voiceOn ++ [audioOutput; ClickInterrupt]) initial in
  let s' := step agentDone s in
  let t := run (voiceOn ++ [audioOutput; ClickInterrupt; audioOutput; agentDone])
               initial in
  let t' := step (SourceEnded 0) t in
  (rendering s = [mkBuffer 0 "UklGRg=="] /\ isProcessingAudio s = false /\
   resumes s' = S (resumes s) /\ pendingAgentDone s' = false /\
   rendering s' = [mkBuffer 0 "UklGRg=="]) /\
  (pendingAgentDone t = true /\
   rendering t = [mkBuffer 0 "UklGRg=="; mkBuffer 1 "UklGRg=="] /\
   resumes t' = S (resumes t) /\ isListening t' = true /\
   pendingAgentDone t' = false /\
   rendering t' = [mkBuffer 1 "UklGRg=="]).
Proof. vm_compute. repeat split. Qed.
